(** * EUDIPLO playground: the session poller, the routes of the server and
      the helpers of the client

    A shallow embedding of
    - [waitForSession] (client/shared/utils.ts), the polling loop shared by
      every demo front end,
    - the routes of server.ts,
    - [buildRedirectUrl], [getSessionFromUrl] and [clearSessionFromUrl]
      (client/shared/utils.ts),
    - the HTTP helpers and the Digital Credentials flow of the client
      (client/shared/utils.ts),
    and the properties of them that the design document states, or that
    the code shows. *)

From Stdlib Require Import ZArith List String Ascii Bool Lia.
From stdpp Require Import base option gmap strings pretty.
Import ListNotations.

Set Warnings "-register-all".

Local Open Scope string_scope.
Local Open Scope list_scope.
Local Open Scope Z_scope.

(** ** JavaScript values *)

(** JSON data as it travels between the backend, the server and the
    browser.  Objects are finite maps from property names to values. *)
Inductive JsValue : Type :=
| JNull
| JBool (b : bool)
| JNum (n : Z)
| JStr (s : string)
| JArr (items : list JsValue)
| JObj (props : gmap string JsValue).

(** A thrown [Error] object: its [name] and its [message]. *)
Record JsError : Type := mkJsError {
  name : string;
  message : string
}.

(** [new Error(message)] *)
Definition Error (msg : string) : JsError :=
  {| name := "Error"; message := msg |}.

(** How the evaluation of a piece of code ends.  [Diverge] is only
    produced by a loop that used up the fuel of the model. *)
Inductive Completion (A : Type) : Type :=
| Normal (a : A)
| Throw (e : JsError)
| Diverge.
Arguments Normal {A} a.
Arguments Throw {A} e.
Arguments Diverge {A}.

(** ** The session poller (client/shared/utils.ts) *)

Module Poller.

(** [interface Session].  The TypeScript type of [status] is the union of
    the six known literals; the value comes from [response.json()] and is
    not checked at run time, so the model keeps it as a string. *)
Record Session : Type := mkSession {
  sessionId : string;
  status : string;
  presentation : option (gmap string JsValue);
  credentials : option (list (gmap string JsValue))
}.

(** An [onUpdate] callback.  A callback is a closure and need not behave
    the same way twice: its behaviour may depend on how many times it was
    called before.  It is handed the Session object itself and may write
    to it: [inr s'] is a normal return that leaves the object as [s']
    (which is [s] when the callback did not touch it), [inl e] is
    [throw e]. *)
Definition Observer : Type := nat -> Session -> JsError + Session.

(** [interface WaitOptions]; an absent property is [None].  Durations and
    readings of the clock are whole numbers of milliseconds. *)
Record WaitOptions : Type := mkWaitOptions {
  onUpdate : option Observer;
  timeout : option Z;
  interval : option Z
}.

(** What the loop does to the outside world, in the order it does it: a
    reading of the clock, a fetch and how it settled, a call of the
    observer with the Session it was shown and how the call ended, a
    sleep. *)
Inductive Event : Type :=
| EvDateNow (t : Z)
| EvFetch (id : string) (r : JsError + Session)
| EvOnUpdate (s : Session) (r : JsError + Session)
| EvSetTimeout (ms : Z).

(** The outside world: what the k-th [Date.now()] returns and how the
    k-th call of [getSessionStatus] settles (rejected with an error or
    fulfilled with a Session).  Nothing is assumed about either. *)
Record Env : Type := mkEnv {
  clock : nat -> Z;
  backend : nat -> string -> JsError + Session
}.

(** The state threaded through a poll: how many times each capability was
    used so far, and the log of events. *)
Record World : Type := mkWorld {
  clock_reads : nat;
  fetch_calls : nat;
  update_calls : nat;
  trace : list Event
}.

Definition log (e : Event) (w : World) : list Event := trace w ++ [e].

(** A state and exception monad over [World]. *)
Definition M (A : Type) : Type := World -> Completion A * World.

Definition ret {A : Type} (a : A) : M A := fun w => (Normal a, w).

Definition throw {A : Type} (e : JsError) : M A := fun w => (Throw e, w).

Definition bind {A B : Type} (m : M A) (k : A -> M B) : M B :=
  fun w =>
    match m w with
    | (Normal a, w') => k a w'
    | (Throw e, w') => (Throw e, w')
    | (Diverge, w') => (Diverge, w')
    end.

Notation "x <- m ;; k" := (bind m (fun x => k))
  (at level 100, m at next level, right associativity).
Notation "m ;;; k" := (bind m (fun _ => k))
  (at level 100, right associativity).

Section Capabilities.

Variable env : Env.

(** [Date.now()] *)
Definition Date_now : M Z := fun w =>
  let t := clock env (clock_reads w) in
  (Normal t,
   mkWorld (S (clock_reads w)) (fetch_calls w) (update_calls w)
           (log (EvDateNow t) w)).

(** [await getSessionStatus(sessionId)]: the HTTP round trip to
    [/api/session/:id].  The promise is rejected when [fetch] fails, when
    the response is not ok (with [new Error] of the message of the body)
    or when the body is not JSON, and fulfilled with the Session
    otherwise; which of these happens is up to the world.  A rejection is
    rethrown by [await]. *)
Definition getSessionStatus (id : string) : M Session := fun w =>
  let r := backend env (fetch_calls w) id in
  let w' := mkWorld (clock_reads w) (S (fetch_calls w)) (update_calls w)
                    (log (EvFetch id r) w) in
  match r with
  | inl e => (Throw e, w')
  | inr s => (Normal s, w')
  end.

(** [onUpdate(session)], a plain call with no [try] around it.  The
    argument is the object that [session] names, not a copy: what the call
    yields is that object as the callback left it. *)
Definition call_onUpdate (f : Observer) (s : Session) : M Session := fun w =>
  let r := f (update_calls w) s in
  let w' := mkWorld (clock_reads w) (fetch_calls w) (S (update_calls w))
                    (log (EvOnUpdate s r) w) in
  match r with
  | inl e => (Throw e, w')
  | inr s' => (Normal s', w')
  end.

(** [await new Promise((resolve) => setTimeout(resolve, ms))] *)
Definition await_setTimeout (ms : Z) : M unit := fun w =>
  (Normal tt,
   mkWorld (clock_reads w) (fetch_calls w) (update_calls w)
           (log (EvSetTimeout ms) w)).

(** The [while] loop of [waitForSession].  [fuel] bounds the number of
    times the loop condition is evaluated.  [session] names one object
    throughout a round: the tests of its status come after the call of
    the observer and read what that call left. *)
Fixpoint poll (fuel : nat) (id : string) (onUpdate : option Observer)
    (timeout interval startTime : Z) : M Session :=
  match fuel with
  | O => fun w => (Diverge, w)
  | S fuel' =>
      now <- Date_now ;;
      if now - startTime <? timeout then
        session <- getSessionStatus id ;;
        session <- match onUpdate with
                   | Some f => call_onUpdate f session
                   | None => ret session
                   end ;;
        if (status session =? "completed")%string
           || (status session =? "fetched")%string then
          ret session
        else if (status session =? "failed")%string
                || (status session =? "expired")%string then
          throw (Error ("Session " +:+ status session))
        else
          await_setTimeout interval ;;;
          poll fuel' id onUpdate timeout interval startTime
      else
        throw (Error "Session timed out")
  end.

(** [waitForSession(sessionId, options = {})] *)
Definition waitForSession (fuel : nat) (id : string) (options : WaitOptions)
    : M Session :=
  let onUpdate := onUpdate options in
  let timeout := default 300000 (timeout options) in
  let interval := default 1500 (interval options) in
  startTime <- Date_now ;;
  poll fuel id onUpdate timeout interval startTime.

End Capabilities.

(** A poll starts with nothing logged. *)
Definition fresh : World := mkWorld 0 0 0 [].

Definition run (env : Env) (fuel : nat) (id : string) (options : WaitOptions)
    : Completion Session * World :=
  waitForSession env fuel id options fresh.

(** *** Vocabulary of the design document *)

(** Terminal-success, terminal-failure and terminal statuses. *)
Definition is_success (st : string) : bool :=
  (st =? "completed")%string || (st =? "fetched")%string.

Definition is_failure (st : string) : bool :=
  (st =? "failed")%string || (st =? "expired")%string.

Definition is_terminal (st : string) : bool := is_success st || is_failure st.


(** The two failures that the loop itself raises.  The code has no error
    classes: both are plain [Error] objects told apart by their message. *)
Definition SessionFailed (st : string) : JsError := Error ("Session " +:+ st).

Definition SessionTimedOut : JsError := Error "Session timed out".

Section Scenario.

Variable env : Env.
Variable id : string.
Variable options : WaitOptions.

(** The elapsed time that the loop condition of round [k] computes (rounds
    are counted from 0; reading 0 of the clock is [startTime]). *)
Definition elapsed (k : nat) : Z := clock env (S k) - clock env 0.

Definition in_budget (k : nat) : Prop :=
  elapsed k < default 300000 (timeout options).

(** The observer, if there is one, returns normally from its k-th call
    and leaves the Session as it is. *)
Definition quiet (k : nat) (s : Session) : Prop :=
  match onUpdate options with
  | Some f => f k s = inr s
  | None => True
  end.

(** How the notification of the Session [s] ends when it is the k-th:
    with the error thrown or with the Session as it then is. *)
Definition shown (k : nat) (s : Session) : JsError + Session :=
  match onUpdate options with
  | Some f => f k s
  | None => inr s
  end.

(** Rounds [0 .. n-1] all start within the budget and fetch a Session;
    the observer, if there is one, returns normally, and the status that
    the Session then has is not terminal.  This is what it takes for the
    loop to reach round [n]. *)
Definition keeps_polling (n : nat) : Prop :=
  forall k, (k < n)%nat ->
    in_budget k /\
    exists s s', backend env k id = inr s /\
                 shown k s = inr s' /\ is_terminal (status s') = false.

(** What round [k] logs. *)
Definition notify_events (k : nat) (s : Session) : list Event :=
  match onUpdate options with
  | Some f => [EvOnUpdate s (f k s)]
  | None => []
  end.

Definition fetch_events (k : nat) : list Event :=
  match backend env k id with
  | inr s => [EvDateNow (clock env (S k)); EvFetch id (inr s)]
               ++ notify_events k s
  | inl e => [EvDateNow (clock env (S k)); EvFetch id (inl e)]
  end.

Definition round_events (k : nat) : list Event :=
  fetch_events k ++ [EvSetTimeout (default 1500 (interval options))].

(** How often the observer has been called after [k] fetched Sessions. *)
Definition notified (k : nat) : nat :=
  match onUpdate options with Some _ => k | None => O end.

(** The world at the top of round [n], after [n] full rounds. *)
Definition after_rounds (n : nat) : World :=
  mkWorld (S n) n (notified n)
          (EvDateNow (clock env 0) :: flat_map round_events (seq 0 n)).

End Scenario.

(** The Sessions fetched and the Sessions shown to the observer, read off
    a log. *)
Definition fetched (tr : list Event) : list Session :=
  flat_map (fun e => match e with EvFetch _ (inr s) => [s] | _ => [] end) tr.

Definition observed (tr : list Event) : list Session :=
  flat_map (fun e => match e with EvOnUpdate s _ => [s] | _ => [] end) tr.

Definition is_fetch (e : Event) : bool :=
  match e with EvFetch _ _ => true | _ => false end.

Definition fetch_attempts (tr : list Event) : nat :=
  length (List.filter is_fetch tr).

(** Every fetch in the log comes immediately after a reading of the clock
    that the loop condition accepted: [t - startTime < timeout]. *)
Definition fetches_guarded (env : Env) (options : WaitOptions)
    (tr : list Event) : Prop :=
  forall pre id r post,
    tr = pre ++ EvFetch id r :: post ->
    exists pre' t,
      pre = pre' ++ [EvDateNow t] /\
      t - clock env 0 < default 300000 (timeout options).

(** What holds of the world whenever control is, or was last, inside
    [waitForSession]: the counters agree with the log, the observer (if
    any) has seen exactly the fetched Sessions, in order, and every fetch
    was issued by a round whose deadline check passed. *)
Record consistent (env : Env) (options : WaitOptions) (w : World) : Prop := {
  cons_fetch_calls : fetch_calls w = fetch_attempts (trace w);
  cons_update_calls : update_calls w = length (observed (trace w));
  cons_observed :
    observed (trace w)
    = match onUpdate options with
      | Some _ => fetched (trace w)
      | None => []
      end;
  cons_budget : forall k, (k < fetch_calls w)%nat -> in_budget env options k;
  cons_guarded : fetches_guarded env options (trace w)
}.

(** *** The world along one round of the loop *)

Section Round.

Variable env : Env.
Variable id : string.
Variable onUpdate : option Observer.
Variable interval : Z.

(** [if (onUpdate) onUpdate(session)] *)
Definition notify (s : Session) : M Session :=
  match onUpdate with
  | Some f => call_onUpdate f s
  | None => ret s
  end.

(** The world after the loop condition read the clock, after the fetch
    settled, after the observer was told and after the sleep. *)
Definition checked (w : World) : World := snd (Date_now env w).

Definition asked (w : World) : World :=
  snd (getSessionStatus env id (checked w)).

Definition told (s : Session) (w : World) : World := snd (notify s (asked w)).

Definition slept (s : Session) (w : World) : World :=
  snd (await_setTimeout interval (told s w)).

End Round.

(** *** Further vocabulary *)

Definition is_sleep (e : Event) : bool :=
  match e with EvSetTimeout _ => true | _ => false end.

Definition sleeps (tr : list Event) : nat := length (List.filter is_sleep tr).

(** The log ends with the fetch of the Session [s0] and, when there is
    an observer, its notification, which is the k-th and ends as [r]. *)
Definition ends_with (id : string) (options : WaitOptions)
    (s0 : Session) (r : JsError + Session) (tr : list Event) : Prop :=
  exists pre,
    tr = pre ++ EvFetch id (inr s0)
             :: notify_events options (length (observed pre)) s0 /\
    shown options (length (observed pre)) s0 = r.

(** The ways in which a poll can end, each with the end of the log that
    goes with it. *)
Definition accounts_for (env : Env) (id : string) (options : WaitOptions)
    (c : Completion Session) (tr : list Event) : Prop :=
  match c with
  | Normal s =>
      is_success (status s) = true /\
      exists s0, ends_with id options s0 (inr s) tr
  | Throw e =>
      (e = SessionTimedOut /\
       exists pre t,
         tr = pre ++ [EvDateNow t] /\
         default 300000 (timeout options) <= t - clock env 0)
      \/ (exists s0 s,
            e = SessionFailed (status s) /\ is_failure (status s) = true /\
            ends_with id options s0 (inr s) tr)
      \/ (exists pre, tr = pre ++ [EvFetch id (inl e)])
      \/ (exists s0, ends_with id options s0 (inl e) tr)
  | Diverge => True
  end.

(** The calls of the observer that a log records: the Session shown and
    how the call ended. *)
Definition notifications (tr : list Event)
    : list (Session * (JsError + Session)) :=
  flat_map (fun e => match e with EvOnUpdate s r => [(s, r)] | _ => [] end) tr.

(** How the fetches of a log settled. *)
Definition settlements (tr : list Event) : list (JsError + Session) :=
  flat_map (fun e => match e with EvFetch _ r => [r] | _ => [] end) tr.

Definition is_exchange (e : Event) : bool :=
  match e with EvFetch _ _ | EvOnUpdate _ _ => true | _ => false end.

(** The fetches that settle as the list says, each fulfilled one followed
    at once by the call that shows its Session to the observer [f]; the
    next call of [f] is its k-th. *)
Fixpoint dialogue (f : Observer) (id : string) (k : nat)
    (l : list (JsError + Session)) : list Event :=
  match l with
  | [] => []
  | inl e :: tl => EvFetch id (inl e) :: dialogue f id k tl
  | inr s :: tl =>
      EvFetch id (inr s) :: EvOnUpdate s (f k s) :: dialogue f id (S k) tl
  end.

(** The observer [f] has been called [k] times, once for every fetched
    Session, and the log, read without the clock and the sleeps, is the
    dialogue. *)
Definition orderly (f : Observer) (id : string) (k : nat) (tr : list Event)
    : Prop :=
  k = length (fetched tr) /\
  List.filter is_exchange tr = dialogue f id 0 (settlements tr).

(** Every fetch of the log asks for [id] and every sleep lasts [ms]. *)
Definition single_minded (id : string) (ms : Z) (tr : list Event) : Prop :=
  Forall (fun e => match e with
                   | EvFetch id' _ => id' = id
                   | EvSetTimeout ms' => ms' = ms
                   | _ => True
                   end) tr.

(** At the top of a round there have been as many sleeps as fetches; at
    the end of a poll there is at most one fetch more. *)
Definition steady (id : string) (ms : Z) (w : World) : Prop :=
  single_minded id ms (trace w) /\
  sleeps (trace w) = fetch_attempts (trace w).

Definition settled (id : string) (ms : Z) (c : Completion Session)
    (w : World) : Prop :=
  single_minded id ms (trace w) /\
  match c with
  | Normal _ => fetch_attempts (trace w) = S (sleeps (trace w))
  | Throw _ =>
      (sleeps (trace w) <= fetch_attempts (trace w) <= S (sleeps (trace w)))%nat
  | Diverge => fetch_attempts (trace w) = sleeps (trace w)
  end.

(** The least number of rounds of [d] milliseconds that fill [t]
    milliseconds: [ceil (t / d)], and 0 when [t] is negative. *)
Definition rounds_within (t d : Z) : nat := Z.to_nat ((t + d - 1) / d).

(** *** The concrete scenarios of the design document *)

Module Scenarios.

Definition ana : gmap string JsValue := {[ "given_name" := JStr "Ana" ]}.

Definition snapshot (st : string) : Session := mkSession "s-1" st None None.

Definition done : Session := mkSession "s-1" "completed" (Some ana) None.

(** A clock that starts at 1000 and has advanced by [step] at every later
    reading but the first (the first loop check follows [startTime] at
    once). *)
Definition ticking (step : Z) : nat -> Z :=
  fun k => 1000 + step * Z.of_nat (Nat.pred k).

(** A fetcher that plays back a script and then repeats [rest]. *)
Definition playback (script : list (JsError + Session))
    (rest : JsError + Session) : nat -> string -> JsError + Session :=
  fun k _ => nth k script rest.

(** 1. pending, processing, completed; interval 10 ms, timeout 10 s. *)
Definition env1 : Env :=
  mkEnv (ticking 10)
        (playback [inr (snapshot "pending"); inr (snapshot "processing")]
                  (inr done)).

(** 2. expired on the first call. *)
Definition env2 : Env :=
  mkEnv (ticking 10) (playback [] (inr (snapshot "expired"))).

(** 3. always pending; interval 20 ms, timeout 50 ms. *)
Definition env3 : Env :=
  mkEnv (ticking 20) (playback [] (inr (snapshot "pending"))).

(** 4. pending, then a transport error. *)
Definition network_down : JsError := mkJsError "TypeError" "Failed to fetch".

Definition env4 : Env :=
  mkEnv (ticking 10)
        (playback [inr (snapshot "pending")] (inl network_down)).

(** 5. the unknown status "queued", then completed. *)
Definition env5 : Env :=
  mkEnv (ticking 10) (playback [inr (snapshot "queued")] (inr done)).

(** A backend that answers completed at once. *)
Definition env6 : Env := mkEnv (ticking 10) (playback [] (inr done)).

(** Observers: one that only looks, one that always throws, one that
    throws at the sight of a completed Session and one that writes
    "completed" into every Session it is shown. *)
Definition silent : Observer := fun _ s => inr s.

Definition boom : JsError := Error "render failed".

Definition faulty : Observer := fun _ _ => inl boom.

Definition picky : Observer :=
  fun _ s => if (status s =? "completed")%string then inl boom else inr s.

Definition meddling : Observer :=
  fun _ s =>
    inr (mkSession (sessionId s) "completed" (presentation s) (credentials s)).

Definition watching (f : Observer) (t i : Z) : WaitOptions :=
  mkWaitOptions (Some f) (Some t) (Some i).

End Scenarios.

End Poller.

(** ** The session route of the server (server.ts) *)

Module Server.

(** [client.getSession(sessionId)] of the SDK: the promise is rejected
    with an error or fulfilled with the session object of the backend.
    The object is not of this repository; it is kept as a plain JS
    object, a finite map from property names to values, where an absent
    property reads as [undefined]. *)
Definition Client : Type := string -> JsError + gmap string JsValue.

(** What the route sends: the HTTP status and the JSON body. *)
Record Response : Type := mkResponse {
  statusCode : Z;
  body : gmap string JsValue
}.

(** An object literal as [res.json] serialises it: a property whose value
    is [undefined] is left out. *)
Definition json_object (props : list (string * option JsValue))
    : gmap string JsValue :=
  fold_right
    (fun p m => match snd p with
                | Some v => <[fst p := v]> m
                | None => m
                end)
    ∅ props.

(** [a || b] on strings: the empty string is falsy. *)
Definition or_else (a b : string) : string :=
  if (a =? "")%string then b else a.

(** [app.get('/api/session/:id', async (req, res) => { ... })] *)
Definition get_session (client : Client) (req_params_id : string) : Response :=
  let sessionId := req_params_id in
  match client sessionId with
  | inr session =>
      (* Only return safe data (no raw credentials) *)
      mkResponse 200
        (json_object [("status", session !! "status");
                      ("credentials", session !! "credentials")])
  | inl error =>
      mkResponse 500
        (json_object
           [("error",
             Some (JStr (or_else (message error) "Internal Server Error")))])
  end.

(** A verification session of the backend that carries a presentation. *)
Definition verified_session : gmap string JsValue :=
  {[ "status" := JStr "completed";
     "presentation" := JObj {[ "given_name" := JStr "Ana" ]} ]}.

End Server.

(** ** The redirect URL helpers (client/shared/utils.ts) *)

(** The helpers are written against the URL API of the browser.  That API
    is modelled after the URL Standard, the Encoding Standard and Web IDL.
    The text of a URL is a string of bytes ([location.href] is a
    serialised URL, which is ASCII, so parsing it only cuts it into its
    components).  The strings that go into and come out of a query are
    JavaScript strings: sequences of 16-bit code units. *)
Module Url.

(** *** JavaScript strings *)

Definition JsString : Type := list Z.

Definition code_unit (c : Z) : bool := (0 <=? c) && (c <=? 0xFFFF).

(** Every element is a 16-bit code unit. *)
Definition is_string (s : JsString) : bool := forallb code_unit s.

(** A literal of ASCII characters. *)
Definition literal (s : string) : JsString :=
  map (fun c => Z.of_N (N_of_ascii c)) (list_ascii_of_string s).

Fixpoint string_eqb (a b : JsString) : bool :=
  match a, b with
  | [], [] => true
  | x :: a', y :: b' => (x =? y) && string_eqb a' b'
  | _, _ => false
  end.

Definition is_lead (c : Z) : bool := (0xD800 <=? c) && (c <=? 0xDBFF).

Definition is_trail (c : Z) : bool := (0xDC00 <=? c) && (c <=? 0xDFFF).

(** The code points of a string, with U+FFFD for every surrogate that is
    not half of a pair: the conversion to a scalar value string that the
    URL API applies to the strings it is given ([USVString]). *)
Fixpoint scalar_values (s : JsString) : list Z :=
  match s with
  | [] => []
  | c :: tl =>
      if is_lead c then
        match tl with
        | d :: tl' =>
            if is_trail d
            then 0x10000 + Z.shiftl (c - 0xD800) 10 + (d - 0xDC00)
                 :: scalar_values tl'
            else 0xFFFD :: scalar_values tl
        | [] => [0xFFFD]
        end
      else if is_trail c then 0xFFFD :: scalar_values tl
      else c :: scalar_values tl
  end.

(** The code units of a code point. *)
Definition code_units_of (cp : Z) : JsString :=
  if cp <=? 0xFFFF then [cp]
  else [0xD800 + Z.shiftr (cp - 0x10000) 10;
        0xDC00 + Z.land (cp - 0x10000) 0x3FF].

Definition from_code_points (l : list Z) : JsString := flat_map code_units_of l.

(** A string as the API takes it. *)
Definition USVString (s : JsString) : JsString :=
  from_code_points (scalar_values s).

(** A string of code units without an unpaired surrogate. *)
Fixpoint well_formed (s : JsString) : bool :=
  match s with
  | [] => true
  | c :: tl =>
      if is_lead c then
        match tl with
        | d :: tl' => is_trail d && well_formed tl'
        | [] => false
        end
      else code_unit c && negb (is_trail c) && well_formed tl
  end.

Definition scalar_value (cp : Z) : bool :=
  (0 <=? cp) && (cp <=? 0x10FFFF)
  && negb ((0xD800 <=? cp) && (cp <=? 0xDFFF)).

(** *** UTF-8 *)

Definition byte (n : Z) : ascii := ascii_of_N (Z.to_N n).

Definition value (c : ascii) : Z := Z.of_N (N_of_ascii c).

(** The UTF-8 encoder, one code point at a time. *)
Definition utf8_encode_code_point (cp : Z) : string :=
  if cp <=? 0x7F then String (byte cp) ""
  else if cp <=? 0x7FF then
    String (byte (Z.shiftr cp 6 + 0xC0))
      (String (byte (Z.lor 0x80 (Z.land cp 0x3F))) "")
  else if cp <=? 0xFFFF then
    String (byte (Z.shiftr cp 12 + 0xE0))
      (String (byte (Z.lor 0x80 (Z.land (Z.shiftr cp 6) 0x3F)))
         (String (byte (Z.lor 0x80 (Z.land cp 0x3F))) ""))
  else
    String (byte (Z.shiftr cp 18 + 0xF0))
      (String (byte (Z.lor 0x80 (Z.land (Z.shiftr cp 12) 0x3F)))
         (String (byte (Z.lor 0x80 (Z.land (Z.shiftr cp 6) 0x3F)))
            (String (byte (Z.lor 0x80 (Z.land cp 0x3F))) ""))).

Fixpoint utf8_encode (l : list Z) : string :=
  match l with
  | [] => ""
  | cp :: tl => utf8_encode_code_point cp +:+ utf8_encode tl
  end.

(** The state of the UTF-8 decoder. *)
Record Utf8Decoder : Type := mkDecoder {
  code_point : Z;
  bytes_seen : Z;
  bytes_needed : Z;
  lower_boundary : Z;
  upper_boundary : Z
}.

Definition fresh_decoder : Utf8Decoder := mkDecoder 0 0 0 0x80 0xBF.

(** What the decoder does with a byte when it needs none: the code points
    it emits and its next state. *)
Definition lead (b : Z) : list Z * Utf8Decoder :=
  if b <=? 0x7F then ([b], fresh_decoder)
  else if (0xC2 <=? b) && (b <=? 0xDF) then
    ([], mkDecoder (Z.land b 0x1F) 0 1 0x80 0xBF)
  else if (0xE0 <=? b) && (b <=? 0xEF) then
    ([], mkDecoder (Z.land b 0xF) 0 2
           (if b =? 0xE0 then 0xA0 else 0x80)
           (if b =? 0xED then 0x9F else 0xBF))
  else if (0xF0 <=? b) && (b <=? 0xF4) then
    ([], mkDecoder (Z.land b 0x7) 0 3
           (if b =? 0xF0 then 0x90 else 0x80)
           (if b =? 0xF4 then 0x8F else 0xBF))
  else ([0xFFFD], fresh_decoder).

(** The decoder, errors replaced by U+FFFD.  A byte that cannot continue
    a sequence ends it with U+FFFD and is read again by the decoder in its
    fresh state; so is the end of the input in the middle of a
    sequence. *)
Fixpoint utf8_decode_from (st : Utf8Decoder) (bytes : string) : list Z :=
  match bytes with
  | EmptyString => if bytes_needed st =? 0 then [] else [0xFFFD]
  | String c tl =>
      let b := value c in
      if bytes_needed st =? 0 then
        fst (lead b) ++ utf8_decode_from (snd (lead b)) tl
      else if (b <? lower_boundary st) || (upper_boundary st <? b) then
        0xFFFD :: fst (lead b) ++ utf8_decode_from (snd (lead b)) tl
      else
        let cp := Z.lor (Z.shiftl (code_point st) 6) (Z.land b 0x3F) in
        if bytes_seen st + 1 =? bytes_needed st
        then cp :: utf8_decode_from fresh_decoder tl
        else utf8_decode_from
               (mkDecoder cp (bytes_seen st + 1) (bytes_needed st) 0x80 0xBF)
               tl
  end.

(** UTF-8 decode without BOM. *)
Definition utf8_decode (bytes : string) : list Z :=
  utf8_decode_from fresh_decoder bytes.

(** *** application/x-www-form-urlencoded *)

Definition in_range (lo hi : N) (c : ascii) : bool :=
  ((lo <=? N_of_ascii c) && (N_of_ascii c <=? hi))%N.

(** The bytes that the serialiser leaves as they are: ASCII letters and
    digits and [*], [-], [.], [_]. *)
Definition unreserved (c : ascii) : bool :=
  in_range 48 57 c || in_range 65 90 c || in_range 97 122 c
  || (c =? "*")%char || (c =? "-")%char || (c =? ".")%char || (c =? "_")%char.

Definition hex_digit (n : N) : ascii :=
  if (n <? 10)%N then ascii_of_N (48 + n) else ascii_of_N (55 + n).

Definition hex_value (c : ascii) : option N :=
  if in_range 48 57 c then Some (N_of_ascii c - 48)%N
  else if in_range 65 70 c then Some (N_of_ascii c - 55)%N
  else if in_range 97 102 c then Some (N_of_ascii c - 87)%N
  else None.

(** Percent-encode one byte: [%] and two upper-case hexadecimal digits. *)
Definition percent_encode_byte (c : ascii) : string :=
  String "%"
    (String (hex_digit (N_of_ascii c / 16))
       (String (hex_digit (N_of_ascii c mod 16)) "")).

(** The byte serialiser: a space becomes [+]. *)
Fixpoint serialize_bytes (s : string) : string :=
  match s with
  | EmptyString => ""
  | String c tl =>
      (if (c =? " ")%char then "+"
       else if unreserved c then String c ""
       else percent_encode_byte c) +:+ serialize_bytes tl
  end.

(** A name or a value in a query: UTF-8 encoded, then serialised. *)
Definition serialize_string (s : JsString) : string :=
  serialize_bytes (utf8_encode (scalar_values s)).

(** The serialiser of a list of name-value pairs. *)
Fixpoint serialize (l : list (JsString * JsString)) : string :=
  match l with
  | [] => ""
  | [(n, v)] => serialize_string n +:+ "=" +:+ serialize_string v
  | (n, v) :: tl =>
      serialize_string n +:+ "=" +:+ serialize_string v +:+ "&"
      +:+ serialize tl
  end.

(** Percent-decode: [%] followed by two hexadecimal digits is one byte;
    any other byte stands for itself. *)
Fixpoint percent_decode (s : string) : string :=
  match s with
  | EmptyString => ""
  | String c tl =>
      if (c =? "%")%char then
        match tl with
        | String h (String l rest) =>
            match hex_value h, hex_value l with
            | Some a, Some b =>
                String (ascii_of_N (16 * a + b)) (percent_decode rest)
            | _, _ => String c (percent_decode tl)
            end
        | _ => String c (percent_decode tl)
        end
      else String c (percent_decode tl)
  end.

Fixpoint plus_to_space (s : string) : string :=
  match s with
  | EmptyString => ""
  | String c tl =>
      String (if (c =? "+")%char then " "%char else c) (plus_to_space tl)
  end.

(** Cut a string at the first occurrence of [sep]; [None] when there is
    none. *)
Fixpoint cut (sep : ascii) (s : string) : string * option string :=
  match s with
  | EmptyString => ("", None)
  | String c tl =>
      if (c =? sep)%char then ("", Some tl)
      else let (a, b) := cut sep tl in (String c a, b)
  end.

(** Split a string on every occurrence of [sep]. *)
Fixpoint split (sep : ascii) (s : string) : list string :=
  match s with
  | EmptyString => [""]
  | String c tl =>
      if (c =? sep)%char then "" :: split sep tl
      else match split sep tl with
           | h :: t => String c h :: t
           | [] => [String c ""]
           end
  end.

(** A name or a value read from a query: [+] becomes a space, the bytes
    are percent-decoded and the result is UTF-8 decoded. *)
Definition parse_string (bytes : string) : JsString :=
  from_code_points (utf8_decode (percent_decode (plus_to_space bytes))).

Definition parse_pair (bytes : string) : JsString * JsString :=
  let (n, v) := cut "=" bytes in
  (parse_string n, parse_string (default "" v)).

(** The parser: split on [&], skip the empty sequences, cut each at the
    first [=] and read the name and the value. *)
Definition parse (input : string) : list (JsString * JsString) :=
  map parse_pair
      (List.filter (fun bytes => negb (bytes =? "")%string) (split "&" input)).

(** *** [URL] and [URLSearchParams] *)

(** A URL record, as far as the helpers look into it: everything before
    the query (scheme, authority and path), the query and the fragment,
    and the list of the [searchParams] object. *)
Record URL : Type := mkURL {
  base : string;
  query : option string;
  fragment : option string;
  searchParams : list (JsString * JsString)
}.

(** [new URL(href)] *)
Definition new_URL (href : string) : URL :=
  let (before, frag) := cut "#" href in
  let (b, q) := cut "?" before in
  mkURL b q frag (parse (default "" q)).

(** [url.search = '']: the query becomes null and the list is emptied. *)
Definition clear_search (url : URL) : URL :=
  mkURL (base url) None (fragment url) [].

Fixpoint replace_first (name value : JsString)
    (l : list (JsString * JsString)) : list (JsString * JsString) :=
  match l with
  | [] => []
  | (n, v) :: tl =>
      if string_eqb n name then
        (n, value) :: List.filter (fun p => negb (string_eqb (fst p) name)) tl
      else (n, v) :: replace_first name value tl
  end.

(** [url.searchParams.set(name, value)]: both arguments are converted to
    scalar value strings; the first pair of that name is set and the
    others are removed, or a new pair is appended; then the query of the
    URL is updated from the list (null when the serialisation is
    empty). *)
Definition searchParams_set (url : URL) (name value : JsString) : URL :=
  let name := USVString name in
  let value := USVString value in
  let l := if existsb (fun p => string_eqb (fst p) name) (searchParams url)
           then replace_first name value (searchParams url)
           else searchParams url ++ [(name, value)] in
  let q := serialize l in
  mkURL (base url) (if (q =? "")%string then None else Some q)
        (fragment url) l.

(** [url.toString()], the serialiser of the URL. *)
Definition toString (url : URL) : string :=
  base url
  +:+ match query url with Some q => "?" +:+ q | None => "" end
  +:+ match fragment url with Some f => "#" +:+ f | None => "" end.

(** [location.search]: empty when the query is null or empty. *)
Definition search (url : URL) : string :=
  match query url with
  | None => ""
  | Some q => if (q =? "")%string then "" else "?" +:+ q
  end.

(** [new URLSearchParams(init)] for a string: a leading [?] is dropped. *)
Definition new_URLSearchParams (init : string)
    : list (JsString * JsString) :=
  match init with
  | String "?" tl => parse tl
  | _ => parse init
  end.

(** [params.get(name)]: the value of the first pair of that name. *)
Fixpoint first_value (params : list (JsString * JsString)) (name : JsString)
    : option JsString :=
  match params with
  | [] => None
  | (n, v) :: tl => if string_eqb n name then Some v else first_value tl name
  end.

Definition get (params : list (JsString * JsString)) (name : JsString)
    : option JsString :=
  first_value params (USVString name).

(** *** The helpers; [location_href] is [globalThis.location.href] *)

Definition getSessionFromUrl (location_href : string) : option JsString :=
  let params := new_URLSearchParams (search (new_URL location_href)) in
  get params (literal "session").

Definition buildRedirectUrl (location_href : string) (sessionId : JsString)
    : string :=
  let url := new_URL location_href in
  let url := clear_search url in
  let url := searchParams_set url (literal "session") sessionId in
  toString url.

(** No byte of the string is [c]. *)
Fixpoint free_of (c : ascii) (s : string) : bool :=
  match s with
  | EmptyString => true
  | String x tl => negb (x =? c)%char && free_of c tl
  end.

(** [clearSessionFromUrl()]: [history.replaceState] makes the serialised
    URL the new [location.href], which is what the function is taken to
    return. *)
Definition clearSessionFromUrl (location_href : string) : string :=
  let url := new_URL location_href in
  let url := clear_search url in
  toString url.


(** One [name=value] piece of a serialised list. *)
Definition piece (p : JsString * JsString) : string :=
  serialize_string (fst p) +:+ String "=" (serialize_string (snd p)).


(** No name and no value of the list has an unpaired surrogate. *)
Definition are_well_formed (l : list (JsString * JsString)) : bool :=
  forallb (fun p => well_formed (fst p) && well_formed (snd p)) l.

(** Sample strings: a grinning face, and the first half of one. *)
Definition grin : JsString := [0xD83D; 0xDE00].

Definition half : JsString := [0xD83D].

End Url.

(** ** The other routes of the server (server.ts) *)

Module Api.
Import Server.

(** What [table[key]] finds on an object literal: a property of its own, a
    property inherited from [Object.prototype] (a function, or the
    prototype itself for [__proto__]: truthy, with none of the fields of
    an entry), or nothing ([undefined]). *)
Inductive Looked (A : Type) : Type :=
| Own (a : A)
| Inherited
| Missing.
Arguments Own {A} a.
Arguments Inherited {A}.
Arguments Missing {A}.

Definition Object_prototype : list string :=
  ["constructor"; "__defineGetter__"; "__defineSetter__"; "hasOwnProperty";
   "__lookupGetter__"; "__lookupSetter__"; "isPrototypeOf";
   "propertyIsEnumerable"; "toString"; "valueOf"; "__proto__";
   "toLocaleString"].

Fixpoint own_property {A : Type} (table : list (string * A)) (key : string)
    : option A :=
  match table with
  | [] => None
  | (k, a) :: tl => if (k =? key)%string then Some a else own_property tl key
  end.

Definition property {A : Type} (table : list (string * A)) (key : string)
    : Looked A :=
  match own_property table key with
  | Some a => Own a
  | None =>
      if existsb (String.eqb key) Object_prototype then Inherited else Missing
  end.

(** [entry.field]: [undefined] on an inherited property. *)
Definition field {A B : Type} (f : A -> B) (entry : Looked A) : option B :=
  match entry with
  | Own a => Some (f a)
  | _ => None
  end.

Record UseCase : Type := mkUseCase {
  presentationConfigId : string;
  useCaseName : string
}.

Definition USE_CASES : list (string * UseCase) :=
  [("alcohol-shop",
    mkUseCase "age-over-18" "Alcohol Shop - Age Verification");
   ("bank-onboarding",
    mkUseCase "playground-pid" "Bank Onboarding - Identity Verification");
   ("sim-activation",
    mkUseCase "playground-pid"
              "SIM Activation - Identity Verification (TKG Â§172)");
   ("museum-discount",
    mkUseCase "resident-city"
              "Museum Discount - Berlin Residency Verification");
   ("parcel-pickup",
    mkUseCase "name-only" "Parcel Pickup - Recipient Verification");
   ("job-portal",
    mkUseCase "diploma-and-pid"
              "Job Portal - Diploma & Identity Verification");
   ("sports-shop",
    mkUseCase "loyalty-card" "Sports Shop - Member Discount")].

Record Credential : Type := mkCredential {
  credentialConfigId : string;
  credentialName : string;
  flow : string
}.

Definition CREDENTIALS : list (string * Credential) :=
  [("pid", mkCredential "pid" "Personal ID (PID)" "pre_authorized_code");
   ("university-diploma",
    mkCredential "university-diploma" "University Diploma"
                 "authorization_code");
   ("loyalty-card",
    mkCredential "loyalty-card" "Loyalty/Membership Card"
                 "pre_authorized_code")].

(** Whether a value that may be [undefined] is truthy. *)
Definition truthy (v : option JsValue) : bool :=
  match v with
  | None | Some JNull | Some (JBool false) => false
  | Some (JNum n) => negb (n =? 0)
  | Some (JStr x) => negb (x =? "")%string
  | Some (JBool true) | Some (JArr _) | Some (JObj _) => true
  end.

(** The request bodies.  The names that the routes use as keys of their
    tables are strings, as the routes cast them; what the routes only test
    for truth is any value, or [undefined]. *)
Record VerifyBody : Type := mkVerifyBody {
  useCase : string;
  redirectUri : option string
}.

Record IssueBody : Type := mkIssueBody {
  credentialId : string;
  claims : option (gmap string JsValue);
  useTxCode : option JsValue
}.

Record CompleteBody : Type := mkCompleteBody {
  responseUri : option JsValue;
  walletResponse : option JsValue
}.

(** The argument of [client.createIssuanceOffer]. *)
Record OfferRequest : Type := mkOfferRequest {
  credentialConfigurationIds : list (option string);
  offerClaims : option (gmap string JsValue);
  offerFlow : option string;
  txCode : option string
}.

(** The SDK, as far as the routes use it; every call may be rejected. *)
Record Sdk : Type := mkSdk {
  createPresentationRequest :
    option string -> option string -> JsError + gmap string JsValue;
  createIssuanceOffer : OfferRequest -> JsError + gmap string JsValue;
  createDcApiRequestForBrowser :
    option string -> JsError + gmap string JsValue;
  submitDcApiWalletResponse :
    JsValue -> JsValue -> JsError + gmap string JsValue
}.

(** [res.status(500).json({ error: error.message || ... })] *)
Definition internal_error (error : JsError) : Response :=
  mkResponse 500
    (json_object
       [("error",
         Some (JStr (or_else (message error) "Internal Server Error")))]).

Definition bad_request (msg : string) : Response :=
  mkResponse 400 (json_object [("error", Some (JStr msg))]).

(** [app.get('/api/use-cases', ...)] *)
Definition use_cases : list (gmap string JsValue) :=
  map (fun entry =>
         json_object [("id", Some (JStr (fst entry)));
                      ("name", Some (JStr (useCaseName (snd entry))))])
      USE_CASES.

(** [app.post('/api/verify', ...)] *)
Definition verify (sdk : Sdk) (body : VerifyBody) : Response :=
  let useCaseConfig := property USE_CASES (useCase body) in
  match useCaseConfig with
  | Missing => bad_request ("Unknown use case: " +:+ useCase body)
  | _ =>
      match createPresentationRequest sdk
              (field presentationConfigId useCaseConfig)
              (redirectUri body) with
      | inr result =>
          mkResponse 200
            (json_object [("uri", result !! "uri");
                          ("crossDeviceUri", result !! "crossDeviceUri");
                          ("sessionId", result !! "sessionId")])
      | inl error => internal_error error
      end
  end.

(** The key under which the claims are handed to the SDK:
    [{ [credential.credentialConfigId]: claims }]; an [undefined] key reads
    "undefined". *)
Definition computed_key (k : option string) : string := default "undefined" k.

(** [app.post('/api/issue', ...)]; [generated] is what [generateTxCode()]
    would return. *)
Definition issue (sdk : Sdk) (generated : string) (body : IssueBody)
    : Response :=
  let credential := property CREDENTIALS (credentialId body) in
  match credential with
  | Missing => bad_request ("Unknown credential: " +:+ credentialId body)
  | _ =>
      let code := if truthy (useTxCode body)
                  then Some generated else None in
      match createIssuanceOffer sdk
              (mkOfferRequest
                 [field credentialConfigId credential]
                 (match claims body with
                  | Some c =>
                      Some {[ computed_key
                                (field credentialConfigId credential)
                              := JObj c ]}
                  | None => None
                  end)
                 (field flow credential)
                 code) with
      | inr result =>
          mkResponse 200
            (json_object [("uri", result !! "uri");
                          ("sessionId", result !! "sessionId");
                          ("txCode", JStr <$> code)])
      | inl error => internal_error error
      end
  end.

(** [app.post('/api/dc-api/start', ...)] *)
Definition dc_api_start (sdk : Sdk) (useCaseId : string) : Response :=
  let useCaseConfig := property USE_CASES useCaseId in
  match useCaseConfig with
  | Missing => bad_request ("Unknown use case: " +:+ useCaseId)
  | _ =>
      match createDcApiRequestForBrowser sdk
              (field presentationConfigId useCaseConfig) with
      | inr requestData => mkResponse 200 requestData
      | inl error => internal_error error
      end
  end.

(** [!value] *)
Definition blank (v : option JsValue) : bool := negb (truthy v).

(** [app.post('/api/dc-api/complete', ...)] *)
Definition dc_api_complete (sdk : Sdk) (body : CompleteBody) : Response :=
  if blank (responseUri body) || blank (walletResponse body) then
    bad_request "Missing responseUri or walletResponse"
  else
    match submitDcApiWalletResponse sdk
            (default JNull (responseUri body))
            (default JNull (walletResponse body)) with
    | inr result => mkResponse 200 result
    | inl error => internal_error error
    end.

(** Two SDKs to try the routes on: one that answers every call with an
    empty object, one whose verification returns a presentation. *)
Definition quiet_sdk : Sdk :=
  mkSdk (fun _ _ => inr ∅) (fun _ => inr ∅) (fun _ => inr ∅)
        (fun _ _ => inr ∅).

Definition verifying_sdk : Sdk :=
  mkSdk (fun _ _ => inr ∅) (fun _ => inr ∅) (fun _ => inr ∅)
        (fun _ _ => inr {[ "presentation" := JNull ]}).

End Api.

(** ** The HTTP helpers of the client (client/shared/utils.ts) *)

Module Http.
Import Server Api.

(** A [Response], as far as the helpers look at it.  For an ok response
    the body is read at the type the helper returns; for any other it is
    unknown JSON.  Either way [response.json()] may be rejected. *)
Inductive HttpResponse (A : Type) : Type :=
| Ok (status : Z) (json : JsError + A)
| NotOk (status : Z) (json : JsError + JsValue).
Arguments Ok {A} status json.
Arguments NotOk {A} status json.

Section Helpers.

(** [JSON.stringify], which returns the text or throws. *)
Variable JSON_stringify : JsValue -> JsError + string.

(** [extractErrorMessage(error, fallback)] *)
Definition extractErrorMessage (error : JsValue) (fallback : string)
    : string :=
  match error with
  | JStr s => s
  | JObj err =>
      match err !! "error" with
      | Some (JStr e) => e
      | _ =>
          match err !! "message" with
          | Some (JStr m) => m
          | _ =>
              match JSON_stringify error with
              | inr text => text
              | inl _ => fallback
              end
          end
      end
  | JArr _ =>
      match JSON_stringify error with
      | inr text => text
      | inl _ => fallback
      end
  | JNull | JBool _ | JNum _ => fallback
  end.

(** What every helper does with the settled [fetch]: the block
    [if (!response.ok) { ... } return response.json()] that the five
    helpers repeat, with their own fallback message.  The promise of a
    helper is rejected with an error ([inl]) or fulfilled ([inr]). *)
Definition received {A : Type} (fallback : string)
    (settled : JsError + HttpResponse A) : JsError + A :=
  match settled with
  | inl e => inl e
  | inr (NotOk status json) =>
      match json with
      | inl _ => inl (Error ("Request failed with status " +:+ pretty status))
      | inr errorBody => inl (Error (extractErrorMessage errorBody fallback))
      end
  | inr (Ok _ json) => json
  end.

(** [getSessionStatus(sessionId)]; [fetch] is given the URL. *)
Definition getSessionStatus
    (fetch : string -> JsError + HttpResponse Poller.Session)
    (sessionId : string) : JsError + Poller.Session :=
  received "Failed to get session" (fetch ("/api/session/" +:+ sessionId)).

(** [createVerificationRequest(useCase, redirectUri)]; [fetch] is given
    the body of the POST to [/api/verify]. *)
Definition createVerificationRequest {A : Type}
    (fetch : VerifyBody -> JsError + HttpResponse A)
    (useCase : string) (redirectUri : option string) : JsError + A :=
  received "Failed to create request" (fetch (mkVerifyBody useCase redirectUri)).

(** [createIssuanceOffer(credentialId, claims)]: the body has the two
    properties [credentialId] and [claims] and no other. *)
Definition createIssuanceOffer {A : Type}
    (fetch : IssueBody -> JsError + HttpResponse A)
    (credentialId : string) (claims : option (gmap string JsValue))
    : JsError + A :=
  received "Failed to create issuance offer"
           (fetch (mkIssueBody credentialId claims None)).

(** [startDcApiVerification(useCase)] *)
Definition startDcApiVerification {A : Type}
    (fetch : string -> JsError + HttpResponse A) (useCase : string)
    : JsError + A :=
  received "Failed to start DC API verification" (fetch useCase).

(** [completeDcApiVerification(responseUri, walletResponse)] *)
Definition completeDcApiVerification {A : Type}
    (fetch : CompleteBody -> JsError + HttpResponse A)
    (responseUri walletResponse : string) : JsError + A :=
  received "Failed to complete DC API verification"
           (fetch (mkCompleteBody (Some (JStr responseUri))
                                  (Some (JStr walletResponse)))).

End Helpers.

(** How an answer of the server that is not ok arrives at the client. *)
Definition refused {A : Type} (r : Response) : JsError + HttpResponse A :=
  inr (NotOk (statusCode r) (inr (JObj (body r)))).

(** [response.ok]: the status is in the range 200-299. *)
Definition ok_status (status : Z) : bool :=
  (200 <=? status) && (status <=? 299).

(** How any answer of the server arrives at the client: ok or not by its
    status.  [read] is the cast of the JSON of an ok response to the type
    that the helper returns; nothing checks it. *)
Definition delivered {A : Type} (read : gmap string JsValue -> A)
    (r : Response) : JsError + HttpResponse A :=
  if ok_status (statusCode r)
  then inr (Ok (statusCode r) (inr (read (body r))))
  else inr (NotOk (statusCode r) (inr (JObj (body r)))).

(** The world of a poll when [getSessionStatus] is the helper above: the
    k-th call of [fetch] settles as [fetch k] says. *)
Definition over_http (JSON_stringify : JsValue -> JsError + string)
    (clock : nat -> Z)
    (fetch : nat -> string -> JsError + HttpResponse Poller.Session)
    : Poller.Env :=
  Poller.mkEnv clock
    (fun k sessionId => getSessionStatus JSON_stringify (fetch k) sessionId).

(** A server that finds the session once and then loses it. *)
Definition sample_read (json : gmap string JsValue) : Poller.Session :=
  Poller.Scenarios.snapshot "pending".

Definition flaky (k : nat) (url : string)
    : JsError + HttpResponse Poller.Session :=
  delivered sample_read
    (get_session (fun _ => match k with
                           | O => inr {[ "status" := JStr "pending" ]}
                           | _ => inl (Error "Session not found")
                           end) "s-1").

End Http.

(** ** Verification through the Digital Credentials API
       (client/shared/utils.ts) *)

Module DcApi.
Import Api Http.

(** [interface DcApiRequestData] *)
Record DcApiRequestData : Type := mkRequestData {
  requestObject : string;
  dataResponseUri : string;
  dataSessionId : string
}.

(** What the flow does to the outside, in the order it does it: a status
    text handed to [onStatus], the request to [/api/dc-api/start], the
    prompt of the wallet, the request to [/api/dc-api/complete]. *)
Inductive Step : Type :=
| Status (text : string)
| Started (useCase : string)
| Prompted (request : string)
| Submitted (responseUri walletResponse : string).

(** A step of the flow: it extends the log and is rejected or
    fulfilled. *)
Definition T (A : Type) : Type := list Step -> (JsError + A) * list Step.

Definition pure {A : Type} (a : A) : T A := fun l => (inr a, l).

Definition fail {A : Type} (e : JsError) : T A := fun l => (inl e, l).

Definition and_then {A B : Type} (m : T A) (k : A -> T B) : T B :=
  fun l =>
    match m l with
    | (inr a, l') => k a l'
    | (inl e, l') => (inl e, l')
    end.

Definition doing {A : Type} (step : Step) (settled : JsError + A) : T A :=
  fun l => (settled, l ++ [step]).

Section Flow.

Variable Result : Type.
Variable JSON_stringify : JsValue -> JsError + string.

(** The two [fetch]es of the flow. *)
Variable start : string -> JsError + HttpResponse DcApiRequestData.
Variable complete : CompleteBody -> JsError + HttpResponse Result.

(** [isDcApiAvailable()] *)
Variable available : bool.

(** [navigator.credentials.get(...)], given the request object: rejected,
    or fulfilled with [null], with a credential that has no [data], or
    with a credential and its [data]. *)
Variable wallet : string -> JsError + option (option string).

(** [onStatus?.(text)] *)
Definition report (onStatus : option (string -> option JsError))
    (text : string) : T unit :=
  match onStatus with
  | Some f =>
      doing (Status text)
            (match f text with Some e => inl e | None => inr tt end)
  | None => pure tt
  end.

(** [callDcApi(requestObject)] *)
Definition callDcApi (request : string) : T string :=
  if negb available then
    fail (Error "Digital Credentials API is not available in this browser")
  else
    doing (Prompted request)
          (match wallet request with
           | inl e => inl e
           | inr (Some (Some data)) => inr data
           | inr _ => inl (Error "No credential returned from wallet")
           end).

(** [verifyWithDcApi(useCase, onStatus)] *)
Definition verifyWithDcApi (useCase : string)
    (onStatus : option (string -> option JsError)) : T Result :=
  and_then (report onStatus "Starting verification...") (fun _ =>
  and_then (doing (Started useCase)
                  (startDcApiVerification JSON_stringify start useCase))
           (fun requestData =>
  and_then (report onStatus "Opening wallet...") (fun _ =>
  and_then (callDcApi (requestObject requestData)) (fun walletResponse =>
  and_then (report onStatus "Processing verification...") (fun _ =>
  and_then (doing (Submitted (dataResponseUri requestData) walletResponse)
                  (completeDcApiVerification JSON_stringify complete
                     (dataResponseUri requestData) walletResponse))
           (fun result => pure result)))))).

(** The status texts that reach the log. *)
Definition notes (onStatus : option (string -> option JsError))
    (text : string) : list Step :=
  match onStatus with
  | Some _ => [Status text]
  | None => []
  end.

(** The log of a flow that goes all the way. *)
Definition script (useCase : string)
    (onStatus : option (string -> option JsError))
    (data : DcApiRequestData) (walletResponse : string) : list Step :=
  notes onStatus "Starting verification..."
  ++ [Started useCase]
  ++ notes onStatus "Opening wallet..."
  ++ [Prompted (requestObject data)]
  ++ notes onStatus "Processing verification..."
  ++ [Submitted (dataResponseUri data) walletResponse].

End Flow.

(** A server and a wallet to try the flow on. *)
Definition sample_data : DcApiRequestData :=
  mkRequestData "eyJ.request" "https://backend/response" "s-1".

Definition sample_start (useCase : string)
    : JsError + HttpResponse DcApiRequestData :=
  inr (Ok 200 (inr sample_data)).

Definition sample_complete (b : CompleteBody)
    : JsError + HttpResponse (gmap string JsValue) :=
  inr (Ok 200 (inr {[ "presentation" := JNull ]})).

Definition sample_wallet (request : string)
    : JsError + option (option string) :=
  inr (Some (Some "vp_token")).

Definition every_status : option (string -> option JsError) :=
  Some (fun _ => None).

End DcApi.

(** * Properties *)

Module PollerFacts.
Import Poller.

(** *** Equations of the capabilities under [bind] *)

Section Steps.

Variable env : Env.
Context {B : Type}.

Lemma bind_ret {A : Type} (a : A) (k : A -> M B) w :
  bind (ret a) k w = k a w.
Proof. reflexivity. Qed.

Lemma bind_throw {A : Type} e (k : A -> M B) w :
  bind (throw e) k w = (Throw e, w).
Proof. reflexivity. Qed.

Lemma bind_Date_now (k : Z -> M B) w :
  bind (Date_now env) k w
  = k (clock env (clock_reads w))
      (mkWorld (S (clock_reads w)) (fetch_calls w) (update_calls w)
               (trace w ++ [EvDateNow (clock env (clock_reads w))])).
Proof. reflexivity. Qed.

Lemma bind_getSessionStatus_ok id s (k : Session -> M B) w :
  backend env (fetch_calls w) id = inr s ->
  bind (getSessionStatus env id) k w
  = k s (mkWorld (clock_reads w) (S (fetch_calls w)) (update_calls w)
                 (trace w ++ [EvFetch id (inr s)])).
Proof. intros H. unfold bind, getSessionStatus, log. now rewrite H. Qed.

Lemma bind_getSessionStatus_err id e (k : Session -> M B) w :
  backend env (fetch_calls w) id = inl e ->
  bind (getSessionStatus env id) k w
  = (Throw e, mkWorld (clock_reads w) (S (fetch_calls w)) (update_calls w)
                      (trace w ++ [EvFetch id (inl e)])).
Proof. intros H. unfold bind, getSessionStatus, log. now rewrite H. Qed.

Lemma bind_call_onUpdate_ok f s s' (k : Session -> M B) w :
  f (update_calls w) s = inr s' ->
  bind (call_onUpdate f s) k w
  = k s' (mkWorld (clock_reads w) (fetch_calls w) (S (update_calls w))
                  (trace w ++ [EvOnUpdate s (inr s')])).
Proof. intros H. unfold bind, call_onUpdate, log. now rewrite H. Qed.

Lemma bind_call_onUpdate_err f s e (k : Session -> M B) w :
  f (update_calls w) s = inl e ->
  bind (call_onUpdate f s) k w
  = (Throw e, mkWorld (clock_reads w) (fetch_calls w) (S (update_calls w))
                      (trace w ++ [EvOnUpdate s (inl e)])).
Proof. intros H. unfold bind, call_onUpdate, log. now rewrite H. Qed.

Lemma bind_await_setTimeout ms (k : unit -> M B) w :
  bind (await_setTimeout ms) k w
  = k tt (mkWorld (clock_reads w) (fetch_calls w) (update_calls w)
                  (trace w ++ [EvSetTimeout ms])).
Proof. reflexivity. Qed.

End Steps.

Lemma is_terminal_false st :
  is_terminal st = false ->
  ((st =? "completed")%string || (st =? "fetched")%string = false) /\
  ((st =? "failed")%string || (st =? "expired")%string = false).
Proof.
  unfold is_terminal, is_success, is_failure.
  intros H. apply orb_false_elim in H. exact H.
Qed.

Ltac proj := cbn [clock_reads fetch_calls update_calls trace].

(** *** Reading a log *)

Lemma fetched_app tr1 tr2 : fetched (tr1 ++ tr2) = fetched tr1 ++ fetched tr2.
Proof. apply flat_map_app. Qed.

Lemma observed_app tr1 tr2 :
  observed (tr1 ++ tr2) = observed tr1 ++ observed tr2.
Proof. apply flat_map_app. Qed.

Lemma fetch_attempts_app tr1 tr2 :
  fetch_attempts (tr1 ++ tr2) = (fetch_attempts tr1 + fetch_attempts tr2)%nat.
Proof. unfold fetch_attempts. now rewrite List.filter_app, length_app. Qed.

Lemma fetches_guarded_nil env options : fetches_guarded env options [].
Proof. intros pre id r post H. now destruct pre. Qed.

Lemma fetches_guarded_snoc env options tr e :
  is_fetch e = false ->
  fetches_guarded env options tr ->
  fetches_guarded env options (tr ++ [e]).
Proof.
  intros He Hg pre id r post Heq.
  destruct post as [|x post _] using rev_ind.
  - apply app_inj_tail in Heq as [_ ->]. discriminate.
  - change (tr ++ [e] = pre ++ (EvFetch id r :: post) ++ [x]) in Heq.
    rewrite app_assoc in Heq. apply app_inj_tail in Heq as [-> _].
    now apply (Hg pre id r post).
Qed.

Lemma fetches_guarded_fetch env options tr t id r :
  t - clock env 0 < default 300000 (timeout options) ->
  fetches_guarded env options (tr ++ [EvDateNow t]) ->
  fetches_guarded env options ((tr ++ [EvDateNow t]) ++ [EvFetch id r]).
Proof.
  intros Ht Hg pre id' r' post Heq.
  destruct post as [|x post _] using rev_ind.
  - apply app_inj_tail in Heq as [<- _]. now exists tr, t.
  - change ((tr ++ [EvDateNow t]) ++ [EvFetch id r]
            = pre ++ (EvFetch id' r' :: post) ++ [x]) in Heq.
    rewrite app_assoc in Heq. apply app_inj_tail in Heq as [Heq _].
    now apply (Hg pre id' r' post).
Qed.

(** *** A proof rule for the loop *)

Section Rule.

Variable env : Env.
Variable id : string.
Variable onUpdate : option Observer.
Variables t i start : Z.

Abbreviation notify := (notify onUpdate).
Abbreviation checked := (checked env).
Abbreviation asked := (asked env id).
Abbreviation told := (told env id onUpdate).
Abbreviation slept := (slept env id onUpdate i).

Lemma checked_eq w :
  checked w
  = mkWorld (S (clock_reads w)) (fetch_calls w) (update_calls w)
            (trace w ++ [EvDateNow (clock env (clock_reads w))]).
Proof. reflexivity. Qed.

Lemma asked_eq w :
  asked w
  = mkWorld (S (clock_reads w)) (S (fetch_calls w)) (update_calls w)
            ((trace w ++ [EvDateNow (clock env (clock_reads w))])
             ++ [EvFetch id (backend env (fetch_calls w) id)]).
Proof.
  unfold Poller.asked, Poller.checked, getSessionStatus, Date_now, log.
  cbn [snd clock_reads fetch_calls update_calls trace].
  now destruct (backend env (fetch_calls w) id).
Qed.

Lemma told_eq s w :
  told s w
  = match onUpdate with
    | Some f =>
        mkWorld (S (clock_reads w)) (S (fetch_calls w)) (S (update_calls w))
          (trace (asked w) ++ [EvOnUpdate s (f (update_calls w) s)])
    | None => asked w
    end.
Proof.
  unfold Poller.told, Poller.notify. destruct onUpdate as [f|]; [|reflexivity].
  unfold call_onUpdate, log. rewrite asked_eq.
  cbn [snd clock_reads fetch_calls update_calls trace].
  now destruct (f (update_calls w) s).
Qed.

Lemma notify_outcome s w :
  fst (notify s (asked w))
  = match match onUpdate with
          | Some f => f (update_calls w) s
          | None => inr s
          end with
    | inl e => Throw e
    | inr s' => Normal s'
    end.
Proof.
  unfold Poller.notify. destruct onUpdate as [f|]; [|reflexivity].
  unfold call_onUpdate. rewrite asked_eq. cbn [update_calls].
  now destruct (f (update_calls w) s).
Qed.

Lemma slept_eq s w :
  slept s w
  = mkWorld (clock_reads (told s w)) (fetch_calls (told s w))
            (update_calls (told s w)) (trace (told s w) ++ [EvSetTimeout i]).
Proof. reflexivity. Qed.

Variable Inv : World -> Prop.
Variable Post : Completion Session -> World -> Prop.

Hypothesis out_of_fuel : forall w, Inv w -> Post Diverge w.

Hypothesis deadline : forall w,
  Inv w -> (clock env (clock_reads w) - start <? t) = false ->
  Post (Throw (Error "Session timed out")) (checked w).

Hypothesis fetch_fails : forall w e,
  Inv w -> (clock env (clock_reads w) - start <? t) = true ->
  backend env (fetch_calls w) id = inl e ->
  Post (Throw e) (asked w).

Hypothesis observer_throws : forall w s e,
  Inv w -> (clock env (clock_reads w) - start <? t) = true ->
  backend env (fetch_calls w) id = inr s ->
  fst (notify s (asked w)) = Throw e ->
  Post (Throw e) (told s w).

Hypothesis success : forall w s s',
  Inv w -> (clock env (clock_reads w) - start <? t) = true ->
  backend env (fetch_calls w) id = inr s ->
  fst (notify s (asked w)) = Normal s' ->
  is_success (status s') = true ->
  Post (Normal s') (told s w).

Hypothesis failure : forall w s s',
  Inv w -> (clock env (clock_reads w) - start <? t) = true ->
  backend env (fetch_calls w) id = inr s ->
  fst (notify s (asked w)) = Normal s' ->
  is_success (status s') = false ->
  is_failure (status s') = true ->
  Post (Throw (Error ("Session " +:+ status s'))) (told s w).

Hypothesis next_round : forall w s s',
  Inv w -> (clock env (clock_reads w) - start <? t) = true ->
  backend env (fetch_calls w) id = inr s ->
  fst (notify s (asked w)) = Normal s' ->
  is_terminal (status s') = false ->
  Inv (slept s w).

Lemma poll_rule fuel w :
  Inv w ->
  Post (fst (poll env fuel id onUpdate t i start w))
       (snd (poll env fuel id onUpdate t i start w)).
Proof.
  induction fuel as [|fuel IH] in w |- *; intros Hw.
  - now apply out_of_fuel.
  - cbn [poll]. rewrite bind_Date_now.
    destruct (clock env (clock_reads w) - start <? t) eqn:Hc.
    2:{ now apply deadline. }
    destruct (backend env (fetch_calls w) id) as [e|s] eqn:Hb.
    { rewrite (bind_getSessionStatus_err _ _ e) by exact Hb.
      pose proof (fetch_fails w e Hw Hc Hb) as H.
      rewrite asked_eq, Hb in H. exact H. }
    rewrite (bind_getSessionStatus_ok _ _ s) by exact Hb.
    cbn [clock_reads fetch_calls update_calls trace].
    assert (Hasked : asked w
              = mkWorld (S (clock_reads w)) (S (fetch_calls w))
                  (update_calls w)
                  ((trace w ++ [EvDateNow (clock env (clock_reads w))])
                   ++ [EvFetch id (inr s)])).
    { now rewrite asked_eq, Hb. }
    rewrite <- Hasked.
    pose proof (observer_throws w s) as Hthrow.
    pose proof (success w s) as Hret.
    pose proof (failure w s) as Hfail.
    pose proof (next_round w s) as Hnext.
    unfold Poller.slept, Poller.told in Hthrow, Hret, Hfail, Hnext.
    change (match onUpdate with
            | Some f => call_onUpdate f s
            | None => ret s
            end) with (notify s).
    assert (Hbind : forall k : Session -> M Session,
              bind (notify s) k (asked w)
              = match notify s (asked w) with
                | (Normal a, w') => k a w'
                | (Throw e, w') => (Throw e, w')
                | (Diverge, w') => (Diverge, w')
                end) by reflexivity.
    rewrite Hbind. clear Hbind.
    destruct (notify s (asked w)) as [[s'|e|] w3] eqn:Hn;
      cbn [fst snd] in Hthrow, Hret, Hfail, Hnext |- *.
    + specialize (Hret s' Hw Hc Hb eq_refl).
      specialize (Hfail s' Hw Hc Hb eq_refl).
      specialize (Hnext s' Hw Hc Hb eq_refl).
      unfold is_terminal, is_success, is_failure in Hret, Hfail, Hnext.
      destruct ((status s' =? "completed")%string
                || (status s' =? "fetched")%string).
      * now apply Hret.
      * destruct ((status s' =? "failed")%string
                  || (status s' =? "expired")%string).
        -- now apply Hfail.
        -- rewrite bind_await_setTimeout. apply IH.
           now apply Hnext.
    + now apply (Hthrow e Hw Hc Hb).
    + exfalso. pose proof (notify_outcome s w) as Ho.
      rewrite Hn in Ho. cbn [fst] in Ho.
      destruct onUpdate as [f|]; [|discriminate].
      destruct (f _ s); discriminate.
Qed.

End Rule.

Section Rounds.

Variable env : Env.
Variable id : string.
Variable options : WaitOptions.

Abbreviation the_poll fuel :=
  (poll env fuel id (onUpdate options) (default 300000 (timeout options))
        (default 1500 (interval options)) (clock env 0)).

Lemma flat_map_seq_S {A : Type} (f : nat -> list A) n :
  flat_map f (seq 0 (S n)) = flat_map f (seq 0 n) ++ f n.
Proof. rewrite seq_S, flat_map_app. simpl. now rewrite app_nil_r. Qed.

(** One full round: the world moves from the top of round [n] to the top
    of round [n+1] and the loop goes on. *)
Lemma poll_round n fuel s s' :
  in_budget env options n ->
  backend env n id = inr s ->
  shown options n s = inr s' ->
  is_terminal (status s') = false ->
  the_poll (S fuel) (after_rounds env id options n)
  = the_poll fuel (after_rounds env id options (S n)).
Proof.
  intros Hb Hf Hq Ht.
  destruct (is_terminal_false _ Ht) as [Hs Hx].
  unfold in_budget, elapsed in Hb. apply Z.ltb_lt in Hb.
  unfold after_rounds, notified. rewrite flat_map_seq_S.
  set (past := flat_map (round_events env id options) (seq 0 n)).
  unfold round_events, fetch_events, notify_events. rewrite Hf.
  cbn [poll]. rewrite bind_Date_now. proj. rewrite Hb.
  rewrite (bind_getSessionStatus_ok _ _ s) by exact Hf. proj.
  unfold shown in Hq.
  destruct (onUpdate options) as [f|].
  - rewrite (bind_call_onUpdate_ok _ _ s') by exact Hq. proj.
    rewrite Hs, Hx, bind_await_setTimeout. proj.
    rewrite Hq. f_equal. f_equal.
    cbn [app]. rewrite <- !app_assoc. reflexivity.
  - injection Hq as <-.
    rewrite bind_ret, Hs, Hx, bind_await_setTimeout. proj.
    f_equal. f_equal.
    cbn [app]. rewrite <- !app_assoc. reflexivity.
Qed.


(** [n] rounds that keep polling use up [n] units of fuel. *)
Lemma poll_rounds n fuel :
  keeps_polling env id options n ->
  the_poll (n + fuel) (after_rounds env id options 0)
  = the_poll fuel (after_rounds env id options n).
Proof.
  induction n as [|n IH] in fuel |- *; intros Hk.
  - reflexivity.
  - replace (S n + fuel)%nat with (n + S fuel)%nat by lia.
    rewrite IH.
    + destruct (Hk n) as (Hb & s & s' & Hf & Hq & Ht); [lia|].
      now apply poll_round with s s'.
    + intros k Hlt. apply Hk. lia.
Qed.

Lemma after_rounds_0 :
  after_rounds env id options 0 = mkWorld 1 0 0 [EvDateNow (clock env 0)].
Proof. unfold after_rounds, notified. now destruct (onUpdate options). Qed.

(** The whole call, up to the top of round [n]. *)
Lemma run_rounds n fuel :
  keeps_polling env id options n ->
  run env (n + fuel) id options
  = the_poll fuel (after_rounds env id options n).
Proof.
  intros Hk. unfold run, waitForSession.
  rewrite bind_Date_now. rewrite <- (poll_rounds n fuel Hk).
  rewrite after_rounds_0. reflexivity.
Qed.

(** The last round, in each of the ways it can end. *)

Lemma last_round_success n fuel s :
  in_budget env options n ->
  backend env n id = inr s ->
  is_success (status s) = true ->
  quiet options n s ->
  the_poll (S fuel) (after_rounds env id options n)
  = (Normal s,
     mkWorld (S (S n)) (S n) (notified options (S n))
             (trace (after_rounds env id options n)
              ++ EvDateNow (clock env (S n)) :: EvFetch id (inr s)
                 :: notify_events options n s)).
Proof.
  intros Hb Hf Hs Hq.
  unfold in_budget, elapsed in Hb. apply Z.ltb_lt in Hb.
  unfold is_success in Hs.
  unfold after_rounds, notified, notify_events.
  cbn [poll]. rewrite bind_Date_now. proj. rewrite Hb.
  rewrite (bind_getSessionStatus_ok _ _ s) by exact Hf. proj.
  unfold quiet in Hq.
  destruct (onUpdate options) as [f|].
  - rewrite (bind_call_onUpdate_ok _ _ s) by exact Hq. proj.
    rewrite Hs, Hq. unfold ret. f_equal. f_equal.
    rewrite <- !app_assoc. reflexivity.
  - rewrite bind_ret, Hs. unfold ret. f_equal. f_equal.
    rewrite <- !app_assoc. reflexivity.
Qed.

Lemma last_round_failure n fuel s :
  in_budget env options n ->
  backend env n id = inr s ->
  is_failure (status s) = true ->
  quiet options n s ->
  the_poll (S fuel) (after_rounds env id options n)
  = (Throw (SessionFailed (status s)),
     mkWorld (S (S n)) (S n) (notified options (S n))
             (trace (after_rounds env id options n)
              ++ EvDateNow (clock env (S n)) :: EvFetch id (inr s)
                 :: notify_events options n s)).
Proof.
  intros Hb Hf Hx Hq.
  unfold in_budget, elapsed in Hb. apply Z.ltb_lt in Hb.
  assert (Hs : (status s =? "completed")%string
               || (status s =? "fetched")%string = false).
  { unfold is_failure in Hx.
    destruct (String.eqb_spec (status s) "failed") as [->|_]; [reflexivity|].
    destruct (String.eqb_spec (status s) "expired") as [->|_];
      [reflexivity|discriminate]. }
  unfold is_failure in Hx.
  unfold after_rounds, notified, notify_events.
  cbn [poll]. rewrite bind_Date_now. proj. rewrite Hb.
  rewrite (bind_getSessionStatus_ok _ _ s) by exact Hf. proj.
  unfold quiet in Hq.
  destruct (onUpdate options) as [f|].
  - rewrite (bind_call_onUpdate_ok _ _ s) by exact Hq. proj.
    rewrite Hs, Hx, Hq. unfold throw, SessionFailed. f_equal. f_equal.
    rewrite <- !app_assoc. reflexivity.
  - rewrite bind_ret, Hs, Hx. unfold throw, SessionFailed. f_equal. f_equal.
    rewrite <- !app_assoc. reflexivity.
Qed.

Lemma last_round_fetch_error n fuel e :
  in_budget env options n ->
  backend env n id = inl e ->
  the_poll (S fuel) (after_rounds env id options n)
  = (Throw e,
     mkWorld (S (S n)) (S n) (notified options n)
             (trace (after_rounds env id options n)
              ++ [EvDateNow (clock env (S n)); EvFetch id (inl e)])).
Proof.
  intros Hb Hf.
  unfold in_budget, elapsed in Hb. apply Z.ltb_lt in Hb.
  unfold after_rounds.
  cbn [poll]. rewrite bind_Date_now. proj. rewrite Hb.
  rewrite (bind_getSessionStatus_err _ _ e) by exact Hf. proj.
  f_equal. f_equal. rewrite <- !app_assoc. reflexivity.
Qed.

Lemma last_round_observer_error n fuel s f e :
  in_budget env options n ->
  backend env n id = inr s ->
  onUpdate options = Some f ->
  f n s = inl e ->
  the_poll (S fuel) (after_rounds env id options n)
  = (Throw e,
     mkWorld (S (S n)) (S n) (S n)
             (trace (after_rounds env id options n)
              ++ [EvDateNow (clock env (S n)); EvFetch id (inr s);
                  EvOnUpdate s (inl e)])).
Proof.
  intros Hb Hf Ho He.
  unfold in_budget, elapsed in Hb. apply Z.ltb_lt in Hb.
  unfold after_rounds, notified. rewrite Ho.
  cbn [poll]. rewrite bind_Date_now. proj. rewrite Hb.
  rewrite (bind_getSessionStatus_ok _ _ s) by exact Hf. proj.
  rewrite (bind_call_onUpdate_err _ _ e) by exact He. proj.
  f_equal. f_equal. rewrite <- !app_assoc. reflexivity.
Qed.


(** *** What every run preserves *)

Lemma consistent_top_poll fuel w :
  consistent env options w ->
  clock_reads w = S (fetch_calls w) ->
  consistent env options (snd (the_poll fuel w)).
Proof.
  induction fuel as [|fuel IH] in w |- *; intros Hc Htop.
  - exact Hc.
  - destruct Hc as [Hfc Huc Hobs Hbud Hgd].
    cbn [poll]. rewrite bind_Date_now.
    assert (Hgd' : fetches_guarded env options
                     (trace w ++ [EvDateNow (clock env (clock_reads w))])).
    { now apply fetches_guarded_snoc. }
    destruct (Z.ltb_spec
                (clock env (clock_reads w) - clock env 0)
                (default 300000 (timeout options))) as [Hlt|Hge]; proj.
    2:{ cbn [snd throw]. split; proj.
        - now rewrite fetch_attempts_app, Nat.add_0_r.
        - now rewrite observed_app, app_nil_r.
        - now rewrite observed_app, fetched_app, !app_nil_r.
        - exact Hbud.
        - exact Hgd'. }
    assert (Hbud' : forall k, (k < S (fetch_calls w))%nat ->
                              in_budget env options k).
    { intros k Hk. destruct (Nat.eq_dec k (fetch_calls w)) as [->|Hne].
      - unfold in_budget, elapsed. now rewrite <- Htop.
      - apply Hbud. lia. }
    destruct (backend env (fetch_calls w) id) as [e|s] eqn:Hf.
    { rewrite (bind_getSessionStatus_err _ _ e) by exact Hf.
      cbn [snd]. split; proj.
      - rewrite !fetch_attempts_app. cbn. lia.
      - now rewrite !observed_app, !app_nil_r.
      - rewrite !observed_app, !fetched_app, !app_nil_r. exact Hobs.
      - exact Hbud'.
      - now apply fetches_guarded_fetch. }
    rewrite (bind_getSessionStatus_ok _ _ s) by exact Hf. proj.
    destruct (onUpdate options) as [f|] eqn:Ho.
    + destruct (f (update_calls w) s) as [e|s'] eqn:Hcall.
      { rewrite (bind_call_onUpdate_err _ _ e) by exact Hcall.
        cbn [snd]. split; proj.
        - rewrite !fetch_attempts_app. cbn. lia.
        - rewrite !observed_app, !length_app. cbn. lia.
        - rewrite !observed_app, !fetched_app, Ho, Hobs. cbn.
          now rewrite !app_nil_r.
        - exact Hbud'.
        - apply fetches_guarded_snoc; [reflexivity|].
          now apply fetches_guarded_fetch. }
      rewrite (bind_call_onUpdate_ok _ _ s') by exact Hcall. proj.
      assert (Hc' : consistent env options
                {| clock_reads := S (clock_reads w);
                   fetch_calls := S (fetch_calls w);
                   update_calls := S (update_calls w);
                   trace := ((trace w
                              ++ [EvDateNow (clock env (clock_reads w))])
                             ++ [EvFetch id (inr s)])
                            ++ [EvOnUpdate s (inr s')] |}).
      { split; proj.
        - rewrite !fetch_attempts_app. cbn. lia.
        - rewrite !observed_app, !length_app. cbn. lia.
        - rewrite !observed_app, !fetched_app, Ho, Hobs. cbn.
          now rewrite !app_nil_r.
        - exact Hbud'.
        - apply fetches_guarded_snoc; [reflexivity|].
          now apply fetches_guarded_fetch. }
      destruct ((status s' =? "completed")%string
                || (status s' =? "fetched")%string); [exact Hc'|].
      destruct ((status s' =? "failed")%string
                || (status s' =? "expired")%string); [exact Hc'|].
      rewrite bind_await_setTimeout. proj.
      apply IH; proj; [|now rewrite Htop].
      destruct Hc' as [H1 H2 H3 H4 H5]. revert H1 H2 H3 H4 H5. proj.
      intros H1 H2 H3 H4 H5. split; proj.
      * now rewrite fetch_attempts_app, Nat.add_0_r.
      * now rewrite observed_app, app_nil_r.
      * now rewrite observed_app, fetched_app, !app_nil_r.
      * exact H4.
      * now apply fetches_guarded_snoc.
    + rewrite bind_ret.
      assert (Hc' : consistent env options
                {| clock_reads := S (clock_reads w);
                   fetch_calls := S (fetch_calls w);
                   update_calls := update_calls w;
                   trace := (trace w
                             ++ [EvDateNow (clock env (clock_reads w))])
                            ++ [EvFetch id (inr s)] |}).
      { split; proj.
        - rewrite !fetch_attempts_app. cbn. lia.
        - now rewrite !observed_app, !app_nil_r.
        - rewrite !observed_app, Hobs, ?Ho. reflexivity.
        - exact Hbud'.
        - now apply fetches_guarded_fetch. }
      destruct ((status s =? "completed")%string
                || (status s =? "fetched")%string); [exact Hc'|].
      destruct ((status s =? "failed")%string
                || (status s =? "expired")%string); [exact Hc'|].
      rewrite bind_await_setTimeout. proj.
      apply IH; proj; [|now rewrite Htop].
      destruct Hc' as [H1 H2 H3 H4 H5]. revert H1 H2 H3 H4 H5. proj.
      intros H1 H2 H3 H4 H5. split; proj.
      * now rewrite fetch_attempts_app, Nat.add_0_r.
      * now rewrite observed_app, app_nil_r.
      * rewrite observed_app, H3, ?Ho. reflexivity.
      * exact H4.
      * now apply fetches_guarded_snoc.
Qed.

Lemma consistent_run fuel :
  consistent env options (snd (run env fuel id options)).
Proof.
  unfold run, waitForSession. rewrite bind_Date_now.
  apply consistent_top_poll; [|reflexivity].
  split; cbn; try reflexivity.
  - now destruct (onUpdate options).
  - intros k Hk. lia.
  - apply (fetches_guarded_snoc env options []); [reflexivity|].
    apply fetches_guarded_nil.
Qed.

(** *** The first deadline check that fails *)



(** *** What the rounds have logged *)



End Rounds.

(** *** The dialogue between the fetches and the observer *)

Lemma settlements_app tr1 tr2 :
  settlements (tr1 ++ tr2) = settlements tr1 ++ settlements tr2.
Proof. apply flat_map_app. Qed.

Lemma notifications_app tr1 tr2 :
  notifications (tr1 ++ tr2) = notifications tr1 ++ notifications tr2.
Proof. apply flat_map_app. Qed.

Lemma notifications_observed tr : map fst (notifications tr) = observed tr.
Proof.
  induction tr as [|e tr IH]; [reflexivity|].
  change (e :: tr) with ([e] ++ tr).
  rewrite notifications_app, observed_app, map_app, IH. now destruct e.
Qed.

Lemma dialogue_snoc f id tr r k :
  dialogue f id k (settlements tr ++ [r])
  = dialogue f id k (settlements tr)
    ++ dialogue f id (k + length (fetched tr)) [r].
Proof.
  induction tr as [|e tr IH] in k |- *.
  - cbn [settlements fetched flat_map app length]. now rewrite Nat.add_0_r.
  - destruct e as [?|id' [e|s]|?|?]; cbn [settlements fetched flat_map app];
      fold (settlements tr); fold (fetched tr); try apply IH.
    + cbn [dialogue]. now rewrite IH.
    + cbn [dialogue length]. rewrite IH.
      now replace (S k + length (fetched tr))%nat
        with (k + S (length (fetched tr)))%nat by lia.
Qed.

Section Dialogue.

Variable f : Observer.
Variable id : string.

Lemma orderly_aside k tr e :
  is_exchange e = false -> orderly f id k tr -> orderly f id k (tr ++ [e]).
Proof.
  intros He [Hk Hd]. unfold orderly.
  rewrite fetched_app, List.filter_app, settlements_app.
  destruct e; try discriminate; cbn; now rewrite !app_nil_r.
Qed.

Lemma orderly_rejected k tr e :
  orderly f id k tr -> orderly f id k (tr ++ [EvFetch id (inl e)]).
Proof.
  intros [Hk Hd]. unfold orderly.
  rewrite fetched_app, List.filter_app, settlements_app.
  cbn [fetched settlements flat_map List.filter is_exchange app].
  rewrite app_nil_r, dialogue_snoc, Hd. now split.
Qed.

Lemma orderly_fulfilled k tr s :
  orderly f id k tr ->
  orderly f id (S k) ((tr ++ [EvFetch id (inr s)]) ++ [EvOnUpdate s (f k s)]).
Proof.
  intros [Hk Hd]. unfold orderly.
  rewrite !fetched_app, !List.filter_app, !settlements_app.
  cbn [fetched settlements flat_map List.filter is_exchange app].
  rewrite !app_nil_r, dialogue_snoc, Hd, length_app, <- Hk. split.
  - cbn. lia.
  - cbn [dialogue Nat.add]. now rewrite <- app_assoc.
Qed.

Lemma poll_orderly env t i start fuel w :
  orderly f id (update_calls w) (trace w) ->
  orderly f id (update_calls (snd (poll env fuel id (Some f) t i start w)))
          (trace (snd (poll env fuel id (Some f) t i start w))).
Proof.
  assert (Htold : forall w0 s,
    orderly f id (update_calls w0) (trace w0) ->
    backend env (fetch_calls w0) id = inr s ->
    orderly f id (update_calls (told env id (Some f) s w0))
            (trace (told env id (Some f) s w0))).
  { intros w0 s H Hb. rewrite told_eq, asked_eq, Hb. proj.
    now apply orderly_fulfilled, orderly_aside. }
  apply (poll_rule env id (Some f) t i start
           (fun w0 => orderly f id (update_calls w0) (trace w0))
           (fun _ w0 => orderly f id (update_calls w0) (trace w0))).
  - trivial.
  - intros w0 H _. rewrite checked_eq. proj. now apply orderly_aside.
  - intros w0 e H _ Hb. rewrite asked_eq, Hb. proj.
    now apply orderly_rejected, orderly_aside.
  - intros w0 s e H _ Hb _. now apply Htold.
  - intros w0 s s' H _ Hb _ _. now apply Htold.
  - intros w0 s s' H _ Hb _ _ _. now apply Htold.
  - intros w0 s s' H _ Hb _ _. rewrite slept_eq. proj.
    apply orderly_aside; [reflexivity|]. now apply Htold.
Qed.

End Dialogue.

(** A poll only adds to the log. *)
Lemma poll_extends env id onUpdate t i start fuel w :
  exists ext,
    trace (snd (poll env fuel id onUpdate t i start w)) = trace w ++ ext.
Proof.
  assert (Htold : forall w0 s,
    (exists ext, trace w0 = trace w ++ ext) ->
    exists ext, trace (told env id onUpdate s w0) = trace w ++ ext).
  { intros w0 s [ext Hext]. rewrite told_eq, asked_eq.
    destruct onUpdate; proj; rewrite Hext, <- !app_assoc; eexists; reflexivity. }
  apply (poll_rule env id onUpdate t i start
           (fun w0 => exists ext, trace w0 = trace w ++ ext)
           (fun _ w0 => exists ext, trace w0 = trace w ++ ext)).
  - trivial.
  - intros w0 [ext Hext] _. rewrite checked_eq. proj.
    rewrite Hext, <- app_assoc. eexists; reflexivity.
  - intros w0 e [ext Hext] _ _. rewrite asked_eq. proj.
    rewrite Hext, <- !app_assoc. eexists; reflexivity.
  - intros w0 s e H _ _ _. now apply Htold.
  - intros w0 s s' H _ _ _ _. now apply Htold.
  - intros w0 s s' H _ _ _ _ _. now apply Htold.
  - intros w0 s s' H _ _ _ _. rewrite slept_eq. proj.
    destruct (Htold w0 s H) as [ext ->]. rewrite <- app_assoc.
    eexists; reflexivity.
  - exists []. now rewrite app_nil_r.
Qed.

(** Round [n], once it is reached within the budget and its fetch is
    fulfilled, logs the fetch and then the notification; whatever follows
    only adds to the log. *)
Lemma round_logged env id options n fuel s :
  in_budget env options n ->
  backend env n id = inr s ->
  exists ext,
    trace (snd (poll env (S fuel) id (onUpdate options)
                     (default 300000 (timeout options))
                     (default 1500 (interval options)) (clock env 0)
                     (after_rounds env id options n)))
    = trace (after_rounds env id options n)
      ++ [EvDateNow (clock env (S n)); EvFetch id (inr s)]
      ++ notify_events options n s ++ ext.
Proof.
  intros Hb Hf. unfold in_budget, elapsed in Hb. apply Z.ltb_lt in Hb.
  assert (Hend : forall (s' : Session) w0,
    exists ext,
      trace (snd ((if (status s' =? "completed")%string
                      || (status s' =? "fetched")%string
                   then ret s'
                   else if (status s' =? "failed")%string
                           || (status s' =? "expired")%string
                        then throw (Error ("Session " +:+ status s'))
                        else await_setTimeout
                               (default 1500 (interval options)) ;;;
                             poll env fuel id (onUpdate options)
                               (default 300000 (timeout options))
                               (default 1500 (interval options))
                               (clock env 0)) w0))
      = trace w0 ++ ext).
  { intros s' w0.
    destruct (_ || _); [exists []; cbn [snd ret]; now rewrite app_nil_r|].
    destruct (_ || _); [exists []; cbn [snd throw]; now rewrite app_nil_r|].
    rewrite bind_await_setTimeout.
    match goal with
    | |- context [poll _ _ _ _ _ _ _ ?w1] =>
        destruct (poll_extends env id (onUpdate options)
                    (default 300000 (timeout options))
                    (default 1500 (interval options)) (clock env 0) fuel w1)
          as [ext Hext]
    end.
    rewrite Hext. proj.
    exists (EvSetTimeout (default 1500 (interval options)) :: ext).
    now rewrite <- !app_assoc. }
  cbn [poll]. rewrite bind_Date_now.
  unfold after_rounds at 1 2 3 4. proj. rewrite Hb.
  rewrite (bind_getSessionStatus_ok _ _ s) by exact Hf. proj.
  unfold notify_events, notified.
  destruct (onUpdate options) as [f|].
  - destruct (f n s) as [e|s'] eqn:Hcall.
    + rewrite (bind_call_onUpdate_err _ _ e) by exact Hcall.
      exists []. cbn [snd trace after_rounds].
      now rewrite <- !app_assoc.
    + rewrite (bind_call_onUpdate_ok _ _ s') by exact Hcall.
      match goal with
      | |- context [snd (_ ?w0)] => destruct (Hend s' w0) as [ext ->]
      end.
      exists ext. cbn [trace after_rounds]. now rewrite <- !app_assoc.
  - rewrite bind_ret.
    match goal with
    | |- context [snd (_ ?w0)] => destruct (Hend s w0) as [ext ->]
    end.
    exists ext. cbn [trace after_rounds]. now rewrite <- !app_assoc.
Qed.

(** *** An observer that only looks is not seen in the outcome *)

Lemma poll_silent_observer env id f t i start fuel w1 w2 :
  (forall k s, f k s = inr s) ->
  clock_reads w1 = clock_reads w2 ->
  fetch_calls w1 = fetch_calls w2 ->
  fst (poll env fuel id (Some f) t i start w1)
  = fst (poll env fuel id None t i start w2).
Proof.
  intros Hf. induction fuel as [|fuel IH] in w1, w2 |- *; intros Hc Hn.
  - reflexivity.
  - cbn [poll]. rewrite !bind_Date_now, Hc.
    destruct (clock env (clock_reads w2) - start <? t); [|reflexivity].
    destruct (backend env (fetch_calls w2) id) as [e|s] eqn:Hb.
    + rewrite !(bind_getSessionStatus_err _ _ e) by (proj; congruence).
      reflexivity.
    + rewrite !(bind_getSessionStatus_ok _ _ s) by (proj; congruence).
      rewrite (bind_call_onUpdate_ok _ _ s) by apply Hf.
      rewrite bind_ret.
      destruct ((status s =? "completed")%string
                || (status s =? "fetched")%string); [reflexivity|].
      destruct ((status s =? "failed")%string
                || (status s =? "expired")%string); [reflexivity|].
      rewrite !bind_await_setTimeout. apply IH; proj; congruence.
Qed.

(** *** The outcomes of a poll *)

Import Scenarios.

(** Closing the side conditions of a concrete scenario by evaluation. *)
Ltac holds := vm_compute; reflexivity.
Ltac fetches :=
  eexists; eexists; split; [reflexivity|split; [reflexivity|reflexivity]].

Lemma enough_fuel n fuel : (n < fuel)%nat -> fuel = (n + S (fuel - S n))%nat.
Proof. lia. Qed.

(** ** C1: the first terminal status is a success *)

(** Against C1 as stated.  The backend answers pending, processing and
    then completed, all within the budget, and the observer throws when
    it is shown the completed Session: the poll does not return that
    Session, it throws the error of the observer. *)
Lemma observer_error_hides_success :
  fetched (trace (snd (run env1 5 "s-1" (watching picky 10000 10))))
  = [snapshot "pending"; snapshot "processing"; done] /\
  is_terminal (status (snapshot "pending")) = false /\
  is_terminal (status (snapshot "processing")) = false /\
  is_success (status done) = true /\
  in_budget env1 (watching picky 10000 10) 2 /\
  fst (run env1 5 "s-1" (watching picky 10000 10)) = Throw boom /\
  fst (run env1 5 "s-1" (watching picky 10000 10)) <> Normal done.
Proof.
  assert (H : fst (run env1 5 "s-1" (watching picky 10000 10)) = Throw boom)
    by reflexivity.
  repeat (split; [holds|]). rewrite H. discriminate.
Qed.

(** C1, as the code has it.  Let rounds [0 .. n-1] fetch Sessions that
    are not terminal and let round [n], started within the budget, fetch a
    Session [s] whose status is completed or fetched, the observer, if
    there is one, returning normally from each of these calls without
    writing to the Session.  Then [waitForSession] returns exactly [s];
    [n+1] fetches were issued in all, and the fetch of [s] is the last one
    in the log, followed only by the notification of the observer.
    Conversely a normal return always carries a Session with a success
    status. *)
Theorem waitForSession_returns_first_success
    (env : Env) (id : string) (options : WaitOptions) n s fuel :
  keeps_polling env id options n ->
  in_budget env options n ->
  backend env n id = inr s ->
  is_success (status s) = true ->
  quiet options n s ->
  (n < fuel)%nat ->
  exists w,
    run env fuel id options = (Normal s, w) /\
    fetch_attempts (trace w) = S n /\
    (exists pre,
       trace w = pre ++ EvFetch id (inr s) :: notify_events options n s) /\
    (forall fuel' s' w',
       run env fuel' id options = (Normal s', w') ->
       s' = s /\ is_success (status s') = true).
Proof.
  intros Hk Hb Hf Hs Hq Hfuel.
  assert (Hrun : forall fuel0, (n < fuel0)%nat ->
            run env fuel0 id options
            = (Normal s,
               mkWorld (S (S n)) (S n) (notified options (S n))
                 (trace (after_rounds env id options n)
                  ++ EvDateNow (clock env (S n)) :: EvFetch id (inr s)
                     :: notify_events options n s))).
  { intros fuel0 H0. rewrite (enough_fuel n fuel0 H0).
    rewrite run_rounds by exact Hk. now apply last_round_success. }
  eexists. split; [apply Hrun; exact Hfuel|]. split; [|split].
  - pose proof (consistent_run env id options fuel) as Hc.
    rewrite (Hrun fuel Hfuel) in Hc. destruct Hc as [Hfc _ _ _ _].
    cbn in Hfc. symmetry. exact Hfc.
  - exists (trace (after_rounds env id options n)
            ++ [EvDateNow (clock env (S n))]).
    cbn [trace]. now rewrite <- app_assoc.
  - intros fuel' s' w' Hrun'.
    destruct (Nat.lt_ge_cases n fuel') as [Hlt|Hge].
    + rewrite (Hrun fuel' Hlt) in Hrun'. injection Hrun' as <- _.
      split; [reflexivity|exact Hs].
    + exfalso.
      assert (Hk' : keeps_polling env id options fuel').
      { intros k Hlt. apply Hk. lia. }
      pose proof (run_rounds env id options fuel' 0 Hk') as Hr.
      rewrite Nat.add_0_r in Hr. rewrite Hr in Hrun'. discriminate.
Qed.

Lemma waitForSession_returns_first_success_witness :
  exists w,
    run env1 3 "s-1" (watching silent 10000 10) = (Normal done, w) /\
    fetch_attempts (trace w) = 3%nat /\
    (exists pre,
       trace w = pre ++ EvFetch "s-1" (inr done)
                        :: notify_events (watching silent 10000 10) 2 done) /\
    (forall fuel' s' w',
       run env1 fuel' "s-1" (watching silent 10000 10) = (Normal s', w') ->
       s' = done /\ is_success (status s') = true).
Proof.
  apply (waitForSession_returns_first_success
           env1 "s-1" (watching silent 10000 10) 2 done 3).
  - intros k Hk.
    destruct k as [|k]; [split; [holds|fetches]|].
    destruct k as [|k]; [split; [holds|fetches]|].
    lia.
  - holds.
  - reflexivity.
  - reflexivity.
  - holds.
  - lia.
Defined.

(** ** C2: the first terminal status is a failure *)

(** Against C2 as stated.  The backend answers expired at once and the
    observer throws when it is shown that Session: the poll ends with the
    error of the observer, not with "Session expired". *)
Lemma observer_error_hides_failure :
  fetched (trace (snd (run env2 3 "s-1" (watching faulty 10000 10))))
  = [snapshot "expired"] /\
  is_failure (status (snapshot "expired")) = true /\
  fst (run env2 3 "s-1" (watching faulty 10000 10)) = Throw boom /\
  fst (run env2 3 "s-1" (watching faulty 10000 10))
  <> Throw (SessionFailed "expired").
Proof.
  assert (H : fst (run env2 3 "s-1" (watching faulty 10000 10)) = Throw boom)
    by reflexivity.
  repeat (split; [holds|]). rewrite H. discriminate.
Qed.

(** C2, as the code has it.  Let rounds [0 .. n-1] fetch Sessions that
    are not terminal and let round [n], started within the budget, fetch a
    Session [s] whose status is failed or expired, the observer, if there
    is one, returning normally from each of these calls without writing to
    the Session.  Then [waitForSession] throws the error
    "Session <status>" for exactly that status: it is neither a normal
    return nor the timeout error.  [n+1] fetches were issued in all and
    the fetch of [s] is the last one in the log. *)
Theorem waitForSession_fails_on_first_failure
    (env : Env) (id : string) (options : WaitOptions) n s fuel :
  keeps_polling env id options n ->
  in_budget env options n ->
  backend env n id = inr s ->
  is_failure (status s) = true ->
  quiet options n s ->
  (n < fuel)%nat ->
  exists w,
    run env fuel id options = (Throw (SessionFailed (status s)), w) /\
    message (SessionFailed (status s)) = "Session " +:+ status s /\
    (status s = "failed" \/ status s = "expired") /\
    SessionFailed (status s) <> SessionTimedOut /\
    fetch_attempts (trace w) = S n /\
    (exists pre,
       trace w = pre ++ EvFetch id (inr s) :: notify_events options n s).
Proof.
  intros Hk Hb Hf Hx Hq Hfuel.
  assert (Hst : status s = "failed" \/ status s = "expired").
  { unfold is_failure in Hx. apply orb_prop in Hx.
    destruct Hx as [H|H]; apply String.eqb_eq in H; auto. }
  assert (Hrun : run env fuel id options
            = (Throw (SessionFailed (status s)),
               mkWorld (S (S n)) (S n) (notified options (S n))
                 (trace (after_rounds env id options n)
                  ++ EvDateNow (clock env (S n)) :: EvFetch id (inr s)
                     :: notify_events options n s))).
  { rewrite (enough_fuel n fuel Hfuel).
    rewrite run_rounds by exact Hk. now apply last_round_failure. }
  eexists. split; [exact Hrun|].
  split; [reflexivity|]. split; [exact Hst|]. split; [|split].
  - destruct Hst as [-> | ->]; discriminate.
  - pose proof (consistent_run env id options fuel) as Hc.
    rewrite Hrun in Hc. destruct Hc as [Hfc _ _ _ _].
    cbn in Hfc. symmetry. exact Hfc.
  - exists (trace (after_rounds env id options n)
            ++ [EvDateNow (clock env (S n))]).
    cbn [trace]. now rewrite <- app_assoc.
Qed.

Lemma waitForSession_fails_on_first_failure_witness :
  exists w,
    run env2 1 "s-1" (watching silent 10000 10)
    = (Throw (SessionFailed "expired"), w) /\
    message (SessionFailed "expired") = "Session expired" /\
    ("expired" = "failed" \/ "expired" = "expired") /\
    SessionFailed "expired" <> SessionTimedOut /\
    fetch_attempts (trace w) = 1%nat /\
    (exists pre,
       trace w
       = pre ++ EvFetch "s-1" (inr (snapshot "expired"))
                :: notify_events (watching silent 10000 10) 0
                                 (snapshot "expired")).
Proof.
  apply (waitForSession_fails_on_first_failure
           env2 "s-1" (watching silent 10000 10) 0 (snapshot "expired") 1).
  - intros k Hk. lia.
  - holds.
  - reflexivity.
  - reflexivity.
  - holds.
  - lia.
Defined.

(** ** C6: the status fetch itself fails *)

(** C6.  Let rounds [0 .. n-1] fetch Sessions that are not terminal and
    let the fetch of round [n] be rejected with the error [e].  Then
    [waitForSession] throws [e] itself, unchanged; the failed fetch is the
    last event of the log, so it is neither retried nor followed by any
    other fetch, and [n+1] fetches were issued in all. *)
Theorem waitForSession_propagates_fetch_error
    (env : Env) (id : string) (options : WaitOptions) n e fuel :
  keeps_polling env id options n ->
  in_budget env options n ->
  backend env n id = inl e ->
  (n < fuel)%nat ->
  exists w,
    run env fuel id options = (Throw e, w) /\
    fetch_attempts (trace w) = S n /\
    (exists pre, trace w = pre ++ [EvFetch id (inl e)]).
Proof.
  intros Hk Hb Hf Hfuel.
  assert (Hrun : run env fuel id options
            = (Throw e,
               mkWorld (S (S n)) (S n) (notified options n)
                 (trace (after_rounds env id options n)
                  ++ [EvDateNow (clock env (S n)); EvFetch id (inl e)]))).
  { rewrite (enough_fuel n fuel Hfuel).
    rewrite run_rounds by exact Hk. now apply last_round_fetch_error. }
  eexists. split; [exact Hrun|]. split.
  - pose proof (consistent_run env id options fuel) as Hc.
    rewrite Hrun in Hc. destruct Hc as [Hfc _ _ _ _].
    cbn in Hfc. symmetry. exact Hfc.
  - exists (trace (after_rounds env id options n)
            ++ [EvDateNow (clock env (S n))]).
    cbn [trace]. now rewrite <- app_assoc.
Qed.

Lemma waitForSession_propagates_fetch_error_witness :
  exists w,
    run env4 2 "s-1" (watching silent 10000 10) = (Throw network_down, w) /\
    fetch_attempts (trace w) = 2%nat /\
    (exists pre, trace w = pre ++ [EvFetch "s-1" (inl network_down)]).
Proof.
  apply (waitForSession_propagates_fetch_error
           env4 "s-1" (watching silent 10000 10) 1 network_down 2).
  - intros k Hk.
    destruct k as [|k]; [split; [holds|fetches]|].
    lia.
  - holds.
  - reflexivity.
  - lia.
Defined.

(** ** C3: an observer that throws *)

(** C3, as the code has it.  The call [onUpdate(session)] is not guarded
    and is handed the Session that the loop goes on to test: an observer
    that returns normally from every call and does not write to the
    Session leaves the outcome as it is without an observer; an observer
    that throws [e] when it is shown the Session of round [n] makes
    [waitForSession] throw [e] itself, right after that call and with no
    further fetch. *)
Theorem onUpdate_error_ends_the_poll :
  (forall env id g t i fuel,
     (forall k s, g k s = inr s) ->
     fst (run env fuel id (mkWaitOptions (Some g) t i))
     = fst (run env fuel id (mkWaitOptions None t i)))
  /\
  (forall env id options n s f e fuel,
     keeps_polling env id options n ->
     in_budget env options n ->
     backend env n id = inr s ->
     onUpdate options = Some f ->
     f n s = inl e ->
     (n < fuel)%nat ->
     exists w,
       run env fuel id options = (Throw e, w) /\
       fetch_attempts (trace w) = S n /\
       exists pre,
         trace w = pre ++ [EvFetch id (inr s); EvOnUpdate s (inl e)]).
Proof.
  split.
  - intros env id g t i fuel Hg. unfold run, waitForSession.
    rewrite !bind_Date_now. cbn [onUpdate timeout interval].
    now apply poll_silent_observer.
  - intros env id options n s f e fuel Hk Hb Hf Ho He Hfuel.
    assert (Hrun : run env fuel id options
              = (Throw e,
                 mkWorld (S (S n)) (S n) (S n)
                   (trace (after_rounds env id options n)
                    ++ [EvDateNow (clock env (S n)); EvFetch id (inr s);
                        EvOnUpdate s (inl e)]))).
    { rewrite (enough_fuel n fuel Hfuel).
      rewrite run_rounds by exact Hk.
      now apply last_round_observer_error with f. }
    eexists. split; [exact Hrun|]. split.
    + pose proof (consistent_run env id options fuel) as Hc.
      rewrite Hrun in Hc. destruct Hc as [Hfc _ _ _ _].
      cbn in Hfc. symmetry. exact Hfc.
    + exists (trace (after_rounds env id options n)
              ++ [EvDateNow (clock env (S n))]).
      cbn [trace]. now rewrite <- app_assoc.
Qed.

Lemma onUpdate_error_ends_the_poll_witness :
  fst (run env1 3 "s-1" (mkWaitOptions (Some silent) (Some 10000) (Some 10)))
  = fst (run env1 3 "s-1" (mkWaitOptions None (Some 10000) (Some 10)))
  /\
  exists w,
    run env6 1 "s-1" (watching faulty 10000 10) = (Throw boom, w) /\
    fetch_attempts (trace w) = 1%nat /\
    exists pre,
      trace w = pre ++ [EvFetch "s-1" (inr done); EvOnUpdate done (inl boom)].
Proof.
  split.
  - apply (proj1 onUpdate_error_ends_the_poll). reflexivity.
  - apply (proj2 onUpdate_error_ends_the_poll
             env6 "s-1" (watching faulty 10000 10) 0%nat done faulty boom 1%nat).
    + intros k Hk. lia.
    + holds.
    + reflexivity.
    + reflexivity.
    + reflexivity.
    + lia.
Defined.

(** Against C3 as stated.  The same backend answers, an observer that
    throws and one that does not: the outcomes differ, the error of the
    observer reaches the caller and the completed Session is lost. *)
Lemma throwing_observer_changes_outcome :
  fst (run env6 3 "s-1" (watching faulty 10000 10)) = Throw boom /\
  fst (run env6 3 "s-1" (watching silent 10000 10)) = Normal done /\
  fst (run env6 3 "s-1" (watching faulty 10000 10))
  <> fst (run env6 3 "s-1" (watching silent 10000 10)).
Proof.
  assert (H1 : fst (run env6 3 "s-1" (watching faulty 10000 10)) = Throw boom)
    by reflexivity.
  assert (H2 : fst (run env6 3 "s-1" (watching silent 10000 10)) = Normal done)
    by reflexivity.
  split; [exact H1|]. split; [exact H2|].
  rewrite H1, H2. discriminate.
Qed.

(** An observer need not throw to change the outcome.  One that writes
    "completed" into the Session it is shown ends the poll at the first
    fetch, though the backend only ever answers pending: the loop tests
    the status after the call. *)
Example writing_observer_ends_the_poll :
  fst (run env3 5 "s-1" (watching meddling 10000 20))
  = Normal (snapshot "completed") /\
  fetched (trace (snd (run env3 5 "s-1" (watching meddling 10000 20))))
  = [snapshot "pending"] /\
  fst (run env3 5 "s-1" (watching silent 50 20)) = Throw SessionTimedOut.
Proof. repeat split. Qed.

(** ** C4: the deadline *)



(** Scenario 3 of the design document runs for three fetches. *)
Example scenario3_three_fetches :
  fst (run env3 5 "s-1" (watching silent 50 20)) = Throw SessionTimedOut /\
  fetch_attempts (trace (snd (run env3 5 "s-1" (watching silent 50 20))))
  = 3%nat.
Proof. split; reflexivity. Qed.

(** ** C5: a timeout of zero *)

(** Against C5 as stated.  With [timeout: 0] and a fetcher that always
    answers pending, the loop condition [Date.now() - startTime < 0] fails
    on entry: the poll ends with the timeout error after no fetch at all,
    not after one. *)
Lemma zero_timeout_issues_no_fetch :
  fst (run env3 3 "s-1" (mkWaitOptions None (Some 0) (Some 20)))
  = Throw SessionTimedOut /\
  fetch_attempts
    (trace (snd (run env3 3 "s-1" (mkWaitOptions None (Some 0) (Some 20)))))
  = 0%nat /\
  fetch_attempts
    (trace (snd (run env3 3 "s-1" (mkWaitOptions None (Some 0) (Some 20)))))
  <> 1%nat.
Proof. split; [reflexivity|]. split; [reflexivity|]. vm_compute. discriminate. Qed.

(** C5, as the code has it.  A timeout of zero is accepted (no argument
    is rejected), and when the clock does not run backwards between the
    reading of [startTime] and the first loop condition, the body of the
    loop is never entered: the poll performs no fetch, calls no observer
    and throws the timeout error, whatever the backend would answer. *)
Theorem zero_timeout_times_out_without_fetch
    (env : Env) (id : string) (f : option Observer) (i : option Z) fuel :
  clock env 0 <= clock env 1 ->
  (0 < fuel)%nat ->
  run env fuel id (mkWaitOptions f (Some 0) i)
  = (Throw SessionTimedOut,
     mkWorld 2 0 0 [EvDateNow (clock env 0); EvDateNow (clock env 1)]).
Proof.
  intros Hclock Hfuel. destruct fuel as [|fuel]; [lia|].
  unfold run, waitForSession, fresh. rewrite bind_Date_now. proj.
  cbn [onUpdate timeout interval poll]. rewrite bind_Date_now. proj.
  change (default 300000 (Some 0)) with 0.
  replace (clock env 1 - clock env 0 <? 0) with false
    by (symmetry; apply Z.ltb_ge; lia).
  reflexivity.
Qed.

Lemma zero_timeout_times_out_without_fetch_witness :
  run env6 3 "s-1" (mkWaitOptions (Some silent) (Some 0) (Some 10))
  = (Throw SessionTimedOut,
     mkWorld 2 0 0 [EvDateNow (clock env6 0); EvDateNow (clock env6 1)]).
Proof.
  apply (zero_timeout_times_out_without_fetch
           env6 "s-1" (Some silent) (Some 10) 3).
  - vm_compute. discriminate.
  - lia.
Defined.

(** ** C7: what the observer is shown *)

(** C7.  In every run with an observer, whatever the backend answers and
    however the run ends, the log read without the clock and the sleeps
    is a dialogue: each fulfilled fetch is followed at once by one call
    of the observer, the k-th call for the k-th fetched Session, with
    that very Session as its argument, and nothing else calls the
    observer.  So the Sessions passed to [onUpdate] are exactly the
    fetched ones, in fetch order, each one once.  And the calls do take
    place: when round [n] is reached within the budget and its fetch is
    fulfilled with [s], the n-th call of the observer is
    [onUpdate(s)]. *)
Theorem onUpdate_sees_every_fetched_session
    (env : Env) (id : string) (f : Observer) (t i : option Z) :
  (forall fuel,
     List.filter is_exchange
       (trace (snd (run env fuel id (mkWaitOptions (Some f) t i))))
     = dialogue f id 0
         (settlements
            (trace (snd (run env fuel id (mkWaitOptions (Some f) t i)))))
     /\
     observed (trace (snd (run env fuel id (mkWaitOptions (Some f) t i))))
     = fetched (trace (snd (run env fuel id (mkWaitOptions (Some f) t i))))
     /\
     update_calls (snd (run env fuel id (mkWaitOptions (Some f) t i)))
     = length (fetched (trace (snd (run env fuel id
                                        (mkWaitOptions (Some f) t i))))))
  /\
  (forall n s fuel,
     keeps_polling env id (mkWaitOptions (Some f) t i) n ->
     in_budget env (mkWaitOptions (Some f) t i) n ->
     backend env n id = inr s ->
     (n < fuel)%nat ->
     nth_error
       (notifications
          (trace (snd (run env fuel id (mkWaitOptions (Some f) t i))))) n
     = Some (s, f n s)).
Proof.
  split.
  - intros fuel.
    destruct (consistent_run env id (mkWaitOptions (Some f) t i) fuel)
      as [_ Huc Hobs _ _].
    cbn [onUpdate] in Hobs. split; [|split; [exact Hobs|]].
    + unfold run, waitForSession. rewrite bind_Date_now.
      cbn [onUpdate]. apply poll_orderly. now split.
    + rewrite Huc. now rewrite Hobs.
  - intros n s fuel Hk Hb Hf Hfuel.
    set (options := mkWaitOptions (Some f) t i) in *.
    pose proof (consistent_run env id options n) as Hc.
    pose proof (run_rounds env id options n 0 Hk) as Hn.
    rewrite Nat.add_0_r in Hn. cbn [poll] in Hn. rewrite Hn in Hc.
    destruct Hc as [_ Huc _ _ _]. cbn [snd] in Huc.
    rewrite (enough_fuel n fuel Hfuel), (run_rounds env id options) by exact Hk.
    destruct (round_logged env id options n (fuel - S n) s Hb Hf)
      as [ext ->].
    rewrite !notifications_app.
    rewrite nth_error_app2;
      rewrite <- (length_map fst), notifications_observed, <- Huc;
      cbn [after_rounds update_calls notified options onUpdate]; [|lia].
    now rewrite Nat.sub_diag.
Qed.

Lemma onUpdate_sees_every_fetched_session_witness :
  nth_error
    (notifications
       (trace (snd (run env1 3 "s-1"
                        (mkWaitOptions (Some silent) (Some 10000) (Some 10))))))
    2%nat
  = Some (done, silent 2%nat done).
Proof.
  apply (proj2 (onUpdate_sees_every_fetched_session
                  env1 "s-1" silent (Some 10000) (Some 10)) 2%nat done 3%nat).
  - intros k Hk.
    destruct k as [|k]; [split; [holds|fetches]|].
    destruct k as [|k]; [split; [holds|fetches]|].
    lia.
  - holds.
  - reflexivity.
  - lia.
Defined.

(** Scenario 1 of the design document: three calls, in order. *)
Example scenario1_observer_log :
  observed (trace (snd (run env1 3 "s-1" (watching silent 10000 10))))
  = [snapshot "pending"; snapshot "processing"; done].
Proof. reflexivity. Qed.

(** Scenario 4 of the design document: one call, for the pending Session. *)
Example scenario4_observer_log :
  observed (trace (snd (run env4 3 "s-1" (watching silent 10000 10))))
  = [snapshot "pending"].
Proof. reflexivity. Qed.

(** ** C8: a status outside the enumeration *)




(** Scenario 5 of the design document: queued, then completed. *)
Example scenario5_queued_then_completed :
  fst (run env5 2 "s-1" (watching silent 10000 10)) = Normal done /\
  observed (trace (snd (run env5 2 "s-1" (watching silent 10000 10))))
  = [snapshot "queued"; done].
Proof. split; reflexivity. Qed.

End PollerFacts.

Module ServerFacts.
Import Server.

(** ** C9: the body of the session route *)

(** Against C9 as stated.  The backend session carries a presentation,
    the response does not. *)
Lemma session_route_drops_presentation :
  verified_session !! "presentation"
  = Some (JObj {[ "given_name" := JStr "Ana" ]}) /\
  body (get_session (fun _ => inr verified_session) "s-1") !! "presentation"
  = None /\
  body (get_session (fun _ => inr verified_session) "s-1") !! "presentation"
  <> verified_session !! "presentation".
Proof.
  assert (H1 : verified_session !! "presentation"
               = Some (JObj {[ "given_name" := JStr "Ana" ]}))
    by reflexivity.
  assert (H2 : body (get_session (fun _ => inr verified_session) "s-1")
                 !! "presentation" = None)
    by reflexivity.
  split; [exact H1|]. split; [exact H2|].
  rewrite H1, H2. discriminate.
Qed.

(** C9, as the code has it.  When the lookup of the backend session
    succeeds, the route answers 200 with a JSON object made of the
    [status] and the [credentials] of the backend session, each present
    exactly when the backend session has it, and of nothing else: no
    other property of the backend session, [presentation] included, is
    passed on. *)
Theorem session_route_returns_status_and_credentials
    (client : Client) (id : string) (session : gmap string JsValue) :
  client id = inr session ->
  statusCode (get_session client id) = 200 /\
  body (get_session client id) !! "status" = session !! "status" /\
  body (get_session client id) !! "credentials" = session !! "credentials" /\
  (forall k : string, k <> "status" -> k <> "credentials" ->
     body (get_session client id) !! k = None).
Proof.
  intros Hc. unfold get_session. rewrite Hc. cbn [statusCode body].
  unfold json_object. cbn [fold_right fst snd].
  split; [reflexivity|].
  destruct (session !! "status") as [st|];
    destruct (session !! "credentials") as [cr|];
    repeat split; intros; simplify_map_eq; reflexivity.
Qed.

Lemma session_route_returns_status_and_credentials_witness :
  statusCode (get_session (fun _ => inr verified_session) "s-1") = 200 /\
  body (get_session (fun _ => inr verified_session) "s-1") !! "status"
  = verified_session !! "status" /\
  body (get_session (fun _ => inr verified_session) "s-1") !! "credentials"
  = verified_session !! "credentials" /\
  (forall k : string, k <> "status" -> k <> "credentials" ->
     body (get_session (fun _ => inr verified_session) "s-1") !! k = None).
Proof.
  apply (session_route_returns_status_and_credentials
           (fun _ => inr verified_session) "s-1" verified_session).
  reflexivity.
Defined.

End ServerFacts.

Module UrlFacts.
Import Url.

(** *** Strings *)

Lemma append_cons x (a b : string) : String x a +:+ b = String x (a +:+ b).
Proof. reflexivity. Qed.

Lemma append_nil (b : string) : "" +:+ b = b.
Proof. reflexivity. Qed.

Lemma append_assoc (a b c : string) : (a +:+ b) +:+ c = a +:+ (b +:+ c).
Proof.
  induction a as [|x a IH]; [reflexivity|].
  rewrite !append_cons. now f_equal.
Qed.

Lemma free_of_append c a b :
  free_of c (a +:+ b) = free_of c a && free_of c b.
Proof.
  induction a as [|x a IH]; [reflexivity|].
  rewrite append_cons. cbn [free_of]. now rewrite IH, andb_assoc.
Qed.

(** *** Cutting and splitting *)

Lemma cut_spec sep s :
  free_of sep (fst (cut sep s)) = true /\
  s = fst (cut sep s)
      +:+ match snd (cut sep s) with Some x => String sep x | None => "" end.
Proof.
  induction s as [|c s [IH1 IH2]]; cbn [cut]; [now split|].
  destruct (Ascii.eqb_spec c sep) as [->|Hne]; cbn [fst snd]; [now split|].
  destruct (cut sep s) as [a b]. cbn [fst snd free_of] in *. split.
  - rewrite IH1. destruct (Ascii.eqb_spec c sep); [contradiction|reflexivity].
  - rewrite append_cons. now rewrite <- IH2.
Qed.

Lemma cut_found sep a b :
  free_of sep a = true -> cut sep (a +:+ String sep b) = (a, Some b).
Proof.
  induction a as [|x a IH]; intros H.
  - rewrite append_nil. cbn [cut]. now rewrite Ascii.eqb_refl.
  - cbn [free_of] in H. apply andb_prop in H as [Hx Ha].
    apply negb_true_iff in Hx.
    rewrite append_cons. cbn [cut]. now rewrite Hx, (IH Ha).
Qed.

Lemma cut_missing sep a : free_of sep a = true -> cut sep a = (a, None).
Proof.
  induction a as [|x a IH]; cbn; intros H; [reflexivity|].
  apply andb_prop in H as [Hx Ha]. apply negb_true_iff in Hx.
  now rewrite Hx, (IH Ha).
Qed.

Lemma split_missing sep a : free_of sep a = true -> split sep a = [a].
Proof.
  induction a as [|x a IH]; cbn; intros H; [reflexivity|].
  apply andb_prop in H as [Hx Ha]. apply negb_true_iff in Hx.
  now rewrite Hx, (IH Ha).
Qed.

(** *** The serialiser writes only letters, digits, [*-._], [+] and [%] *)

Ltac each_byte c := destruct c as [[] [] [] [] [] [] [] []].

Lemma serialize_bytes_free_of sep s :
  unreserved sep = false -> sep <> "+"%char -> sep <> "%"%char ->
  free_of sep (serialize_bytes s) = true.
Proof.
  intros Hu Hplus Hpct.
  assert (Hne : forall x, unreserved x = true -> (x =? sep)%char = false).
  { intros x Hx. destruct (Ascii.eqb_spec x sep) as [->|]; congruence. }
  assert (Hp : ("+" =? sep)%char = false).
  { destruct (Ascii.eqb_spec "+" sep); congruence. }
  assert (Hq : ("%" =? sep)%char = false).
  { destruct (Ascii.eqb_spec "%" sep); congruence. }
  induction s as [|c s IH]; cbn [serialize_bytes]; [reflexivity|].
  rewrite free_of_append, IH, andb_true_r.
  destruct (c =? " ")%char.
  - cbn [free_of]. now rewrite Hp.
  - destruct (unreserved c) eqn:Hc.
    + cbn [free_of]. now rewrite (Hne c Hc).
    + unfold percent_encode_byte. cbn [free_of]. rewrite Hq.
      rewrite !Hne; [reflexivity| |].
      * clear. each_byte c; reflexivity.
      * clear. each_byte c; reflexivity.
Qed.

(** *** Percent-decoding undoes the byte serialiser *)

Lemma decode_byte c rest :
  percent_decode
    (plus_to_space
       ((if (c =? " ")%char then "+"
         else if unreserved c then String c ""
         else percent_encode_byte c) +:+ rest))
  = String c (percent_decode (plus_to_space rest)).
Proof. each_byte c; reflexivity. Qed.

Lemma decode_serialize_bytes s :
  percent_decode (plus_to_space (serialize_bytes s)) = s.
Proof.
  induction s as [|c s IH]; [reflexivity|].
  cbn [serialize_bytes]. now rewrite decode_byte, IH.
Qed.

(** *** Shifts and masks as arithmetic *)

Lemma value_byte n : 0 <= n <= 255 -> value (byte n) = n.
Proof.
  intros H. unfold value, byte.
  rewrite N_ascii_embedding by lia. lia.
Qed.

Lemma land_low a n : 0 <= n -> Z.land a (2 ^ n - 1) = a mod 2 ^ n.
Proof.
  intros Hn. rewrite <- Z.land_ones by exact Hn.
  now rewrite Z.ones_equiv, Z.sub_1_r.
Qed.

Lemma lor_high a b n :
  0 <= n -> 0 <= b < 2 ^ n -> Z.lor (a * 2 ^ n) b = a * 2 ^ n + b.
Proof.
  intros Hn Hb.
  assert (H0 : Z.land (a * 2 ^ n) b = 0).
  { apply Z.bits_inj'. intros m Hm.
    rewrite Z.land_spec, Z.bits_0.
    destruct (Z.lt_ge_cases m n) as [Hlt|Hge].
    - now rewrite Z.mul_pow2_bits_low.
    - assert (Hbit : Z.testbit b m = false).
      { destruct (Z.eq_dec b 0) as [->|Hne]; [apply Z.bits_0|].
        apply Z.bits_above_log2; [lia|].
        apply Z.log2_lt_pow2; [lia|].
        apply Z.lt_le_trans with (2 ^ n); [lia|].
        apply Z.pow_le_mono_r; lia. }
      rewrite Hbit. apply andb_false_r. }
  rewrite <- Z.lxor_lor by exact H0.
  symmetry. now apply Z.add_nocarry_lxor.
Qed.

Lemma shr6 a : Z.shiftr a 6 = a / 64.
Proof. now rewrite Z.shiftr_div_pow2. Qed.

Lemma shr10 a : Z.shiftr a 10 = a / 1024.
Proof. now rewrite Z.shiftr_div_pow2. Qed.

Lemma shr12 a : Z.shiftr a 12 = a / 4096.
Proof. now rewrite Z.shiftr_div_pow2. Qed.

Lemma shr18 a : Z.shiftr a 18 = a / 262144.
Proof. now rewrite Z.shiftr_div_pow2. Qed.

Lemma shl6 a : Z.shiftl a 6 = a * 64.
Proof. now rewrite Z.shiftl_mul_pow2. Qed.

Lemma shl10 a : Z.shiftl a 10 = a * 1024.
Proof. now rewrite Z.shiftl_mul_pow2. Qed.

Lemma and7 a : Z.land a 0x7 = a mod 8.
Proof. exact (land_low a 3 ltac:(lia)). Qed.

Lemma andF a : Z.land a 0xF = a mod 16.
Proof. exact (land_low a 4 ltac:(lia)). Qed.

Lemma and1F a : Z.land a 0x1F = a mod 32.
Proof. exact (land_low a 5 ltac:(lia)). Qed.

Lemma and3F a : Z.land a 0x3F = a mod 64.
Proof. exact (land_low a 6 ltac:(lia)). Qed.

Lemma and3FF a : Z.land a 0x3FF = a mod 1024.
Proof. exact (land_low a 10 ltac:(lia)). Qed.

Lemma or80 b : 0 <= b < 64 -> Z.lor 0x80 b = 128 + b.
Proof.
  intros H. change 0x80 with (1 * 2 ^ 7).
  rewrite lor_high; lia.
Qed.

Lemma or_shl6 a b : 0 <= b < 64 -> Z.lor (a * 64) b = a * 64 + b.
Proof. intros H. exact (lor_high a b 6 ltac:(lia) H). Qed.

Ltac bits :=
  rewrite ?shr6, ?shr10, ?shr12, ?shr18, ?shl6, ?shl10,
    ?and7, ?andF, ?and1F, ?and3F, ?and3FF.

Ltac arith := Z.div_mod_to_equations; lia.

(** Turning the range tests of the hypotheses into inequalities. *)
Ltac ranges :=
  unfold is_lead, is_trail, code_unit, scalar_value in *;
  repeat match goal with
  | H : _ && _ = true |- _ => apply andb_prop in H as [? ?]
  | H : negb _ = true |- _ => apply negb_true_iff in H
  | H : _ && _ = false |- _ => apply andb_false_iff in H as [?|?]
  | H : (_ <=? _) = true |- _ => apply Z.leb_le in H
  | H : (_ <=? _) = false |- _ => apply Z.leb_gt in H
  end.

(** Deciding the range tests of the goal. *)
Ltac tests :=
  repeat match goal with
  | |- context [Z.leb ?a ?b] =>
      destruct (Z.leb_spec a b); try (exfalso; arith)
  | |- context [Z.ltb ?a ?b] =>
      destruct (Z.ltb_spec a b); try (exfalso; arith)
  | |- context [Z.eqb ?a ?b] =>
      destruct (Z.eqb_spec a b); try (exfalso; arith)
  end.

(** *** The UTF-8 decoder undoes the encoder *)

Lemma lead_1 b : 0 <= b <= 0x7F -> lead b = ([b], fresh_decoder).
Proof. intros H. unfold lead. now tests. Qed.

Lemma lead_2 b :
  0xC2 <= b <= 0xDF -> lead b = ([], mkDecoder (b mod 32) 0 1 0x80 0xBF).
Proof. intros H. unfold lead. bits. now tests. Qed.

Lemma lead_3 b :
  0xE0 <= b <= 0xEF ->
  lead b = ([], mkDecoder (b mod 16) 0 2
                  (if b =? 0xE0 then 0xA0 else 0x80)
                  (if b =? 0xED then 0x9F else 0xBF)).
Proof.
  intros H. unfold lead. bits.
  destruct (Z.leb_spec b 0x7F); [lia|].
  destruct (Z.leb_spec 0xC2 b); [|lia].
  destruct (Z.leb_spec b 0xDF); [lia|].
  destruct (Z.leb_spec 0xE0 b); [|lia].
  destruct (Z.leb_spec b 0xEF); [|lia].
  reflexivity.
Qed.

Lemma lead_4 b :
  0xF0 <= b <= 0xF4 ->
  lead b = ([], mkDecoder (b mod 8) 0 3
                  (if b =? 0xF0 then 0x90 else 0x80)
                  (if b =? 0xF4 then 0x8F else 0xBF)).
Proof.
  intros H. unfold lead. bits.
  destruct (Z.leb_spec b 0x7F); [lia|].
  destruct (Z.leb_spec 0xC2 b); [|lia].
  destruct (Z.leb_spec b 0xDF); [lia|].
  destruct (Z.leb_spec 0xE0 b); [|lia].
  destruct (Z.leb_spec b 0xEF); [lia|].
  destruct (Z.leb_spec 0xF0 b); [|lia].
  destruct (Z.leb_spec b 0xF4); [|lia].
  reflexivity.
Qed.

Lemma decode_lead b tl :
  0 <= b <= 255 ->
  utf8_decode_from fresh_decoder (String (byte b) tl)
  = fst (lead b) ++ utf8_decode_from (snd (lead b)) tl.
Proof.
  intros H. cbn [utf8_decode_from bytes_needed fresh_decoder].
  now rewrite value_byte.
Qed.

Lemma decode_more cp seen needed lo hi b tl :
  0 <= b <= 255 -> needed <> 0 -> lo <= b <= hi -> seen + 1 <> needed ->
  utf8_decode_from (mkDecoder cp seen needed lo hi) (String (byte b) tl)
  = utf8_decode_from
      (mkDecoder (cp * 64 + b mod 64) (seen + 1) needed 0x80 0xBF) tl.
Proof.
  intros Hb Hn Hr Hs.
  cbn [utf8_decode_from bytes_needed bytes_seen code_point lower_boundary
       upper_boundary].
  rewrite value_byte by exact Hb. bits. rewrite or_shl6 by arith.
  destruct (Z.eqb_spec needed 0); [contradiction|].
  destruct (Z.ltb_spec b lo); [lia|].
  destruct (Z.ltb_spec hi b); [lia|]. cbn [orb].
  destruct (Z.eqb_spec (seen + 1) needed); [contradiction|]. reflexivity.
Qed.

Lemma decode_last cp seen needed lo hi b tl :
  0 <= b <= 255 -> needed <> 0 -> lo <= b <= hi -> seen + 1 = needed ->
  utf8_decode_from (mkDecoder cp seen needed lo hi) (String (byte b) tl)
  = (cp * 64 + b mod 64) :: utf8_decode_from fresh_decoder tl.
Proof.
  intros Hb Hn Hr Hs.
  cbn [utf8_decode_from bytes_needed bytes_seen code_point lower_boundary
       upper_boundary].
  rewrite value_byte by exact Hb. bits. rewrite or_shl6 by arith.
  destruct (Z.eqb_spec needed 0); [contradiction|].
  destruct (Z.ltb_spec b lo); [lia|].
  destruct (Z.ltb_spec hi b); [lia|]. cbn [orb].
  destruct (Z.eqb_spec (seen + 1) needed); [|contradiction]. reflexivity.
Qed.

Lemma decode_encode_code_point cp rest :
  scalar_value cp = true ->
  utf8_decode_from fresh_decoder (utf8_encode_code_point cp +:+ rest)
  = cp :: utf8_decode_from fresh_decoder rest.
Proof.
  intros H.
  assert (H0 : 0 <= cp <= 0x10FFFF) by (ranges; lia).
  assert (Hns : cp < 0xD800 \/ 0xDFFF < cp) by (ranges; lia).
  clear H. unfold utf8_encode_code_point.
  destruct (Z.leb_spec cp 0x7F).
  { rewrite append_cons, append_nil, decode_lead, lead_1 by lia.
    reflexivity. }
  destruct (Z.leb_spec cp 0x7FF).
  { bits. rewrite or80 by arith. rewrite !append_cons, append_nil.
    rewrite decode_lead, lead_2 by arith. cbn [fst snd app].
    rewrite decode_last by arith. f_equal. arith. }
  destruct (Z.leb_spec cp 0xFFFF).
  { bits. rewrite !or80 by arith. rewrite !append_cons, append_nil.
    rewrite decode_lead, lead_3 by arith. cbn [fst snd app].
    rewrite decode_more; [|arith|lia| |lia].
    2:{ destruct (Z.eqb_spec (cp / 4096 + 224) 224);
          destruct (Z.eqb_spec (cp / 4096 + 224) 237); arith. }
    rewrite decode_last by arith. f_equal. arith. }
  bits. rewrite !or80 by arith. rewrite !append_cons, append_nil.
  rewrite decode_lead, lead_4 by arith. cbn [fst snd app].
  rewrite decode_more; [|arith|lia| |lia].
  2:{ destruct (Z.eqb_spec (cp / 262144 + 240) 240);
        destruct (Z.eqb_spec (cp / 262144 + 240) 244); arith. }
  rewrite decode_more by arith.
  rewrite decode_last by arith. f_equal. arith.
Qed.

Lemma utf8_decode_encode l :
  forallb scalar_value l = true -> utf8_decode (utf8_encode l) = l.
Proof.
  unfold utf8_decode. induction l as [|cp l IH]; [reflexivity|].
  cbn [forallb utf8_encode]. intros H. apply andb_prop in H as [Hcp Hl].
  now rewrite decode_encode_code_point, IH.
Qed.

(** *** Code units and code points *)

(** Induction on a string read one or two code units at a time. *)
Lemma pairs_ind (P : JsString -> Prop) :
  P [] ->
  (forall c tl, P tl -> (forall d tl', tl = d :: tl' -> P tl') -> P (c :: tl)) ->
  forall s, P s.
Proof.
  intros Hnil Hcons s.
  assert (H : P s /\ forall d tl', s = d :: tl' -> P tl').
  { induction s as [|c s [IH1 IH2]].
    - split; [exact Hnil|discriminate].
    - split; [now apply Hcons|]. now intros d tl' [= _ <-]. }
  exact (proj1 H).
Qed.

Lemma scalar_value_FFFD : scalar_value 0xFFFD = true.
Proof. reflexivity. Qed.

Lemma scalar_value_pair c d :
  is_lead c = true -> is_trail d = true ->
  scalar_value (0x10000 + Z.shiftl (c - 0xD800) 10 + (d - 0xDC00)) = true.
Proof. intros Hc Hd. bits. ranges. tests. reflexivity. Qed.

Lemma scalar_value_unit c :
  code_unit c = true -> is_lead c = false -> is_trail c = false ->
  scalar_value c = true.
Proof. intros H Hl Ht. ranges; tests; reflexivity. Qed.

(** The code points of a string are scalar values. *)
Lemma scalar_values_valid s :
  is_string s = true -> forallb scalar_value (scalar_values s) = true.
Proof.
  induction s as [|c tl IH1 IH2] using pairs_ind; [reflexivity|].
  unfold is_string. cbn [forallb scalar_values]. intros H.
  apply andb_prop in H as [Hc Htl]. fold (is_string tl) in Htl.
  destruct (is_lead c) eqn:Hlead.
  - destruct tl as [|d tl']; [reflexivity|].
    destruct (is_trail d) eqn:Htrail; cbn [forallb].
    + rewrite scalar_value_pair by assumption.
      apply (IH2 d tl' eq_refl).
      unfold is_string in Htl. cbn [forallb] in Htl.
      now apply andb_prop in Htl as [_ Htl].
    + now rewrite scalar_value_FFFD, IH1.
  - destruct (is_trail c) eqn:Htrail; cbn [forallb].
    + now rewrite scalar_value_FFFD, IH1.
    + now rewrite scalar_value_unit, IH1.
Qed.

(** Reading the code points of the code units of scalar values gives
    them back. *)
Lemma scalar_values_from_code_points l :
  forallb scalar_value l = true -> scalar_values (from_code_points l) = l.
Proof.
  induction l as [|cp l IH]; [reflexivity|].
  cbn [forallb]. intros H. apply andb_prop in H as [Hcp Hl].
  unfold from_code_points. cbn [flat_map]. fold (from_code_points l).
  assert (H0 : 0 <= cp <= 0x10FFFF) by (ranges; lia).
  assert (Hns : cp < 0xD800 \/ 0xDFFF < cp) by (ranges; lia).
  unfold code_units_of. destruct (Z.leb_spec cp 0xFFFF).
  - cbn [app scalar_values].
    replace (is_lead cp) with false by (unfold is_lead; now tests).
    replace (is_trail cp) with false by (unfold is_trail; now tests).
    now rewrite IH.
  - bits. cbn [app scalar_values].
    replace (is_lead (55296 + (cp - 65536) / 1024)) with true
      by (unfold is_lead; now tests).
    replace (is_trail (56320 + (cp - 65536) mod 1024)) with true
      by (unfold is_trail; now tests).
    bits. rewrite IH by exact Hl. f_equal. arith.
Qed.

(** A string without unpaired surrogates is what its code points say. *)
Lemma from_code_points_scalar_values s :
  well_formed s = true -> USVString s = s.
Proof.
  unfold USVString.
  induction s as [|c tl IH1 IH2] using pairs_ind; [reflexivity|].
  cbn [well_formed scalar_values].
  destruct (is_lead c) eqn:Hlead.
  - destruct tl as [|d tl']; [discriminate|].
    intros H. apply andb_prop in H as [Htrail Htl]. rewrite Htrail.
    unfold from_code_points. cbn [flat_map]. fold (from_code_points (scalar_values tl')).
    rewrite (IH2 d tl' eq_refl Htl).
    unfold code_units_of. bits. ranges.
    destruct (Z.leb_spec (65536 + (c - 55296) * 1024 + (d - 56320)) 65535);
      [lia|].
    cbn [app]. f_equal; [arith|]. f_equal. arith.
  - intros H. apply andb_prop in H as [H Htl].
    apply andb_prop in H as [Hc Htrail]. apply negb_true_iff in Htrail.
    rewrite Htrail.
    unfold from_code_points. cbn [flat_map]. fold (from_code_points (scalar_values tl)).
    rewrite (IH1 Htl). unfold code_units_of.
    replace (c <=? 0xFFFF) with true by (ranges; now tests).
    reflexivity.
Qed.

Lemma well_formed_is_string s : well_formed s = true -> is_string s = true.
Proof.
  unfold is_string.
  induction s as [|c tl IH1 IH2] using pairs_ind; [reflexivity|].
  cbn [well_formed forallb].
  destruct (is_lead c) eqn:Hlead.
  - destruct tl as [|d tl']; [discriminate|].
    intros H. apply andb_prop in H as [Htrail Htl]. cbn [forallb].
    rewrite (IH2 d tl' eq_refl Htl).
    replace (code_unit c) with true by (ranges; unfold code_unit; now tests).
    replace (code_unit d) with true by (ranges; unfold code_unit; now tests).
    reflexivity.
  - intros H. apply andb_prop in H as [H Htl].
    apply andb_prop in H as [Hc _]. now rewrite Hc, IH1.
Qed.

(** Converting twice is converting once. *)
Lemma scalar_values_USVString s :
  is_string s = true -> scalar_values (USVString s) = scalar_values s.
Proof.
  intros H. unfold USVString.
  now rewrite scalar_values_from_code_points by now apply scalar_values_valid.
Qed.

(** *** Parsing undoes serialising *)

Lemma parse_serialize_string s :
  is_string s = true -> parse_string (serialize_string s) = USVString s.
Proof.
  intros H. unfold parse_string, serialize_string.
  rewrite decode_serialize_bytes, utf8_decode_encode; [reflexivity|].
  now apply scalar_values_valid.
Qed.

Lemma serialize_string_USVString s :
  is_string s = true -> serialize_string (USVString s) = serialize_string s.
Proof.
  intros H. unfold serialize_string. now rewrite scalar_values_USVString.
Qed.

Lemma serialize_string_free_of sep s :
  unreserved sep = false -> sep <> "+"%char -> sep <> "%"%char ->
  free_of sep (serialize_string s) = true.
Proof. intros. now apply serialize_bytes_free_of. Qed.

(** The query that [buildRedirectUrl] writes. *)
Lemma parse_session_query s :
  is_string s = true ->
  parse ("session=" +:+ serialize_string s)
  = [(literal "session", USVString s)].
Proof.
  intros Hs. set (r := serialize_string s).
  change ("session=" +:+ r) with ("session" +:+ String "=" r).
  assert (Hne : ("session" +:+ String "=" r =? "")%string = false)
    by reflexivity.
  unfold parse. rewrite split_missing.
  - cbn [List.filter]. rewrite Hne. cbn [negb map]. unfold parse_pair.
    rewrite cut_found by reflexivity.
    change (default "" (Some r)) with r.
    change (parse_string "session") with (literal "session").
    subst r. now rewrite parse_serialize_string.
  - rewrite free_of_append. subst r. cbn [free_of].
    rewrite serialize_string_free_of; [reflexivity|reflexivity| |];
      discriminate.
Qed.

Lemma append_nil_r (a : string) : a +:+ "" = a.
Proof.
  induction a as [|x a IH]; [reflexivity|].
  rewrite append_cons. now f_equal.
Qed.

Lemma session_query_free_of sep s :
  unreserved sep = false -> sep <> "+"%char -> sep <> "%"%char ->
  sep <> "="%char ->
  free_of sep ("session=" +:+ serialize_string s) = true.
Proof.
  intros Hu Hplus Hpct Heq.
  change ("session=" +:+ serialize_string s)
    with (serialize_bytes "session" +:+ String "=" (serialize_string s)).
  rewrite free_of_append. cbn [free_of].
  rewrite serialize_bytes_free_of, serialize_string_free_of by assumption.
  destruct (Ascii.eqb_spec "=" sep) as [E|_]; [now subst sep|reflexivity].
Qed.

(** What [new URL] reads back from a serialised URL with a query. *)
Lemma new_URL_with_query b q frag :
  free_of "#" b = true -> free_of "?" b = true -> free_of "#" q = true ->
  new_URL (b +:+ ("?" +:+ q)
           +:+ match frag with Some f => "#" +:+ f | None => "" end)
  = mkURL b (Some q) frag (parse q).
Proof.
  intros Hb1 Hb2 Hq.
  assert (Hfree : free_of "#" (b +:+ String "?" q) = true).
  { rewrite free_of_append, Hb1. cbn [free_of]. now rewrite Hq. }
  change ("?" +:+ q) with (String "?" q).
  unfold new_URL. destruct frag as [f|].
  - change ("#" +:+ f) with (String "#" f).
    rewrite <- append_assoc, (cut_found "#" _ f Hfree).
    now rewrite (cut_found "?" b q Hb2).
  - rewrite append_nil_r, (cut_missing "#" _ Hfree).
    now rewrite (cut_found "?" b q Hb2).
Qed.

(** What [buildRedirectUrl] returns, in terms of the parts of
    [location.href]. *)
Lemma buildRedirectUrl_form href sessionId :
  buildRedirectUrl href sessionId
  = base (new_URL href)
    +:+ ("?" +:+ ("session=" +:+ serialize_string (USVString sessionId)))
    +:+ match fragment (new_URL href) with
        | Some f => "#" +:+ f
        | None => ""
        end.
Proof.
  unfold buildRedirectUrl, new_URL.
  destruct (cut "#" href) as [before frag].
  destruct (cut "?" before) as [b q].
  reflexivity.
Qed.

Lemma new_URL_base_free href :
  free_of "#" (base (new_URL href)) = true /\
  free_of "?" (base (new_URL href)) = true.
Proof.
  unfold new_URL.
  destruct (cut_spec "#" href) as [H1 _].
  destruct (cut "#" href) as [before frag]. cbn [fst] in H1.
  destruct (cut_spec "?" before) as [H2 H3].
  destruct (cut "?" before) as [b q]. cbn [fst snd] in H2, H3. cbn [base].
  split; [|exact H2].
  rewrite H3, free_of_append in H1. now apply andb_prop in H1 as [H1 _].
Qed.

(** The URL record of the address that [buildRedirectUrl] returns. *)
Lemma new_URL_buildRedirectUrl href sessionId :
  new_URL (buildRedirectUrl href sessionId)
  = mkURL (base (new_URL href))
          (Some ("session=" +:+ serialize_string (USVString sessionId)))
          (fragment (new_URL href))
          (parse ("session=" +:+ serialize_string (USVString sessionId))).
Proof.
  destruct (new_URL_base_free href) as [Hb1 Hb2].
  rewrite buildRedirectUrl_form. apply new_URL_with_query; [assumption..|].
  apply session_query_free_of; [reflexivity|discriminate..].
Qed.

(** Reading the session from an address whose query is known. *)
Lemma getSessionFromUrl_with_query b q frag :
  free_of "#" b = true -> free_of "?" b = true -> free_of "#" q = true ->
  q <> "" ->
  getSessionFromUrl
    (b +:+ ("?" +:+ q)
     +:+ match frag with Some f => "#" +:+ f | None => "" end)
  = get (parse q) (literal "session").
Proof.
  intros Hb1 Hb2 Hq Hne. unfold getSessionFromUrl.
  rewrite (new_URL_with_query _ _ _ Hb1 Hb2 Hq).
  unfold search. cbn [query].
  destruct (String.eqb_spec q "") as [E|_]; [contradiction|].
  change ("?" +:+ q) with (String "?" q).
  reflexivity.
Qed.

(** ** C10: the session id survives the redirect URL *)

(** Against C10 as stated.  The first half of a surrogate pair is a
    string; built into a redirect URL it is written as U+FFFD, and that
    is what is read back. *)
Lemma unpaired_surrogate_is_replaced :
  is_string half = true /\
  buildRedirectUrl "https://demo.example/job-portal/" half
  = "https://demo.example/job-portal/?session=%EF%BF%BD" /\
  getSessionFromUrl (buildRedirectUrl "https://demo.example/job-portal/" half)
  = Some [0xFFFD] /\
  getSessionFromUrl (buildRedirectUrl "https://demo.example/job-portal/" half)
  <> Some half.
Proof.
  assert (H : getSessionFromUrl
                (buildRedirectUrl "https://demo.example/job-portal/" half)
              = Some [0xFFFD]) by reflexivity.
  split; [reflexivity|]. split; [reflexivity|]. split; [exact H|].
  rewrite H. discriminate.
Qed.

(** C10, as the code has it.  Whatever the current [location.href], when
    the browser is at the URL that [buildRedirectUrl] returns for a
    session id without unpaired surrogates, [getSessionFromUrl] reads
    exactly that session id; for any session id it reads the id with
    U+FFFD in place of each unpaired surrogate.  The query of that URL
    holds the one parameter [session] and nothing of the query that
    [location.href] had, and the part before the query and the fragment
    are those of [location.href]. *)
Theorem getSessionFromUrl_buildRedirectUrl
    (href : string) (sessionId : JsString) :
  (well_formed sessionId = true ->
   getSessionFromUrl (buildRedirectUrl href sessionId) = Some sessionId /\
   searchParams (new_URL (buildRedirectUrl href sessionId))
   = [(literal "session", sessionId)])
  /\
  (is_string sessionId = true ->
   getSessionFromUrl (buildRedirectUrl href sessionId)
   = Some (USVString sessionId) /\
   searchParams (new_URL (buildRedirectUrl href sessionId))
   = [(literal "session", USVString sessionId)])
  /\
  base (new_URL (buildRedirectUrl href sessionId)) = base (new_URL href) /\
  fragment (new_URL (buildRedirectUrl href sessionId))
  = fragment (new_URL href).
Proof.
  assert (Hany : is_string sessionId = true ->
    getSessionFromUrl (buildRedirectUrl href sessionId)
    = Some (USVString sessionId) /\
    searchParams (new_URL (buildRedirectUrl href sessionId))
    = [(literal "session", USVString sessionId)]).
  { intros Hs.
    destruct (new_URL_base_free href) as [Hb1 Hb2].
    rewrite new_URL_buildRedirectUrl, buildRedirectUrl_form.
    cbn [searchParams].
    rewrite getSessionFromUrl_with_query;
      [|assumption..
       |apply session_query_free_of; [reflexivity|discriminate..]
       |discriminate].
    rewrite serialize_string_USVString, parse_session_query by exact Hs.
    now split. }
  split; [|split; [exact Hany|]].
  - intros Hw.
    rewrite <- (from_code_points_scalar_values sessionId Hw) at 2 4.
    now apply Hany, well_formed_is_string.
  - now rewrite new_URL_buildRedirectUrl.
Qed.

Lemma getSessionFromUrl_buildRedirectUrl_witness :
  (getSessionFromUrl
     (buildRedirectUrl
        "https://demo.example/job-portal/?lang=de&session=old#top" grin)
   = Some grin /\
   searchParams
     (new_URL
        (buildRedirectUrl
           "https://demo.example/job-portal/?lang=de&session=old#top" grin))
   = [(literal "session", grin)])
  /\
  (getSessionFromUrl
     (buildRedirectUrl
        "https://demo.example/job-portal/?lang=de&session=old#top" half)
   = Some (USVString half) /\
   searchParams
     (new_URL
        (buildRedirectUrl
           "https://demo.example/job-portal/?lang=de&session=old#top" half))
   = [(literal "session", USVString half)]).
Proof.
  split.
  - apply (proj1 (getSessionFromUrl_buildRedirectUrl
                    "https://demo.example/job-portal/?lang=de&session=old#top"
                    grin)).
    reflexivity.
  - apply (proj1 (proj2 (getSessionFromUrl_buildRedirectUrl
                    "https://demo.example/job-portal/?lang=de&session=old#top"
                    half))).
    reflexivity.
Defined.

(** The redirect URL that the demos ask the backend to use. *)
Example buildRedirectUrl_placeholder :
  buildRedirectUrl "https://demo.example/job-portal/?lang=de&session=old#top"
                   (literal "{sessionId}")
  = "https://demo.example/job-portal/?session=%7BsessionId%7D#top".
Proof. reflexivity. Qed.

Example buildRedirectUrl_beyond_ascii :
  buildRedirectUrl "https://demo.example/job-portal/" grin
  = "https://demo.example/job-portal/?session=%F0%9F%98%80".
Proof. reflexivity. Qed.

Example getSessionFromUrl_decodes :
  getSessionFromUrl "https://demo.example/job-portal/?session=a+b%26c%3D%2B"
  = Some (literal "a b&c=+").
Proof. reflexivity. Qed.

(** Bytes that are not UTF-8 are read as U+FFFD. *)
Example getSessionFromUrl_not_utf8 :
  getSessionFromUrl "https://demo.example/job-portal/?session=%FF"
  = Some [0xFFFD].
Proof. reflexivity. Qed.


End UrlFacts.

(** * Further properties of the URL helpers *)

Module UrlMore.
Import Url UrlFacts.

Lemma parse_empty : parse "" = [].
Proof. reflexivity. Qed.

(** What [new URL] reads back from a serialised URL without a query. *)
Lemma new_URL_without_query b frag :
  free_of "#" b = true -> free_of "?" b = true ->
  new_URL (b +:+ "" +:+ match frag with Some f => "#" +:+ f | None => "" end)
  = mkURL b None frag [].
Proof.
  intros Hb1 Hb2. rewrite append_nil. unfold new_URL. destruct frag as [f|].
  - change ("#" +:+ f) with (String "#" f).
    rewrite (cut_found "#" b f Hb1), (cut_missing "?" b Hb2). reflexivity.
  - rewrite append_nil_r, (cut_missing "#" b Hb1), (cut_missing "?" b Hb2).
    reflexivity.
Qed.

Lemma clearSessionFromUrl_form href :
  clearSessionFromUrl href
  = base (new_URL href) +:+ ""
    +:+ match fragment (new_URL href) with
        | Some f => "#" +:+ f
        | None => ""
        end.
Proof.
  unfold clearSessionFromUrl, new_URL.
  destruct (cut "#" href) as [before frag].
  destruct (cut "?" before) as [b q].
  reflexivity.
Qed.

(** X1.  Once [clearSessionFromUrl] has rewritten the address, whatever
    the address was (any query, any fragment, a fragment that itself
    looks like a query), [getSessionFromUrl] finds no session: it returns
    [null]. *)
Theorem getSessionFromUrl_after_clear (href : string) :
  getSessionFromUrl (clearSessionFromUrl href) = None.
Proof.
  destruct (new_URL_base_free href) as [Hb1 Hb2].
  unfold getSessionFromUrl.
  rewrite clearSessionFromUrl_form, (new_URL_without_query _ _ Hb1 Hb2).
  reflexivity.
Qed.

(** X2.  Clearing the address that [buildRedirectUrl] built gives the
    same address as clearing the one it was built from, and that address
    is the part of [location.href] before its query followed by its
    fragment: read as a URL it has that same part before the query, that
    same fragment, no query and no parameter.  So an address made of a
    path, a query and a fragment is cleared to the path and the
    fragment. *)
Theorem clearSessionFromUrl_buildRedirectUrl
    (href : string) (sessionId : JsString) :
  clearSessionFromUrl (buildRedirectUrl href sessionId)
  = clearSessionFromUrl href /\
  clearSessionFromUrl href
  = base (new_URL href)
    +:+ match fragment (new_URL href) with
        | Some f => "#" +:+ f
        | None => ""
        end /\
  new_URL (clearSessionFromUrl href)
  = mkURL (base (new_URL href)) None (fragment (new_URL href)) [] /\
  (forall b q frag,
     free_of "#" b = true -> free_of "?" b = true -> free_of "#" q = true ->
     clearSessionFromUrl
       (b +:+ ("?" +:+ q)
        +:+ match frag with Some f => "#" +:+ f | None => "" end)
     = b +:+ match frag with Some f => "#" +:+ f | None => "" end).
Proof.
  destruct (new_URL_base_free href) as [Hb1 Hb2].
  split; [|split; [|split]].
  - rewrite (clearSessionFromUrl_form (buildRedirectUrl href sessionId)).
    rewrite new_URL_buildRedirectUrl.
    cbn [base fragment]. now rewrite clearSessionFromUrl_form.
  - now rewrite clearSessionFromUrl_form.
  - rewrite clearSessionFromUrl_form.
    now apply new_URL_without_query.
  - intros b q frag H1 H2 H3.
    rewrite clearSessionFromUrl_form, (new_URL_with_query _ _ _ H1 H2 H3).
    reflexivity.
Qed.

Lemma clearSessionFromUrl_buildRedirectUrl_witness :
  clearSessionFromUrl
    ("https://demo.example/job-portal/" +:+ ("?" +:+ "lang=de&session=old")
     +:+ "#" +:+ "top")
  = "https://demo.example/job-portal/" +:+ "#" +:+ "top".
Proof.
  apply (proj2 (proj2 (proj2 (clearSessionFromUrl_buildRedirectUrl
                                "https://demo.example/job-portal/" grin)))
           "https://demo.example/job-portal/" "lang=de&session=old"
           (Some "top")).
  - reflexivity.
  - reflexivity.
  - reflexivity.
Defined.

(** X3.  Building a redirect URL from an address that already is a
    redirect URL replaces the session: the result is the same as building
    it from the original address, so session parameters never pile up. *)
Theorem buildRedirectUrl_twice (href : string) (first second : JsString) :
  buildRedirectUrl (buildRedirectUrl href first) second
  = buildRedirectUrl href second.
Proof.
  rewrite (buildRedirectUrl_form (buildRedirectUrl href first)).
  rewrite new_URL_buildRedirectUrl.
  cbn [base fragment]. now rewrite buildRedirectUrl_form.
Qed.

(** *** Any list of parameters survives the query string *)

Lemma split_found sep a b :
  free_of sep a = true -> split sep (a +:+ String sep b) = a :: split sep b.
Proof.
  induction a as [|x a IH]; intros H.
  - rewrite append_nil. cbn [split]. now rewrite Ascii.eqb_refl.
  - cbn [free_of] in H. apply andb_prop in H as [Hx Ha].
    apply negb_true_iff in Hx.
    rewrite append_cons. cbn [split]. now rewrite Hx, (IH Ha).
Qed.

Lemma serialize_cons p q tl :
  serialize (p :: q :: tl) = piece p +:+ String "&" (serialize (q :: tl)).
Proof.
  destruct p as [n v]. unfold piece. cbn [serialize fst snd].
  change ("=" +:+ serialize_string v +:+ "&" +:+ serialize (q :: tl))
    with (String "=" (serialize_string v +:+ String "&" (serialize (q :: tl)))).
  rewrite append_assoc. rewrite append_cons. reflexivity.
Qed.

Lemma serialize_one p : serialize [p] = piece p.
Proof. now destruct p. Qed.

Lemma piece_free_of sep p :
  unreserved sep = false -> sep <> "+"%char -> sep <> "%"%char ->
  sep <> "="%char ->
  free_of sep (piece p) = true.
Proof.
  intros Hu Hplus Hpct Heq. unfold piece.
  rewrite free_of_append. cbn [free_of].
  rewrite !serialize_string_free_of by assumption.
  destruct (Ascii.eqb_spec "=" sep) as [E|_]; [now subst sep|reflexivity].
Qed.

Lemma piece_not_empty p : (piece p =? "")%string = false.
Proof.
  unfold piece. destruct (serialize_string (fst p)); reflexivity.
Qed.

Lemma parse_pair_piece p :
  well_formed (fst p) = true -> well_formed (snd p) = true ->
  parse_pair (piece p) = p.
Proof.
  intros Hn Hv. unfold parse_pair, piece.
  rewrite cut_found
    by (apply serialize_string_free_of; [reflexivity|discriminate..]).
  change (default "" (Some (serialize_string (snd p))))
    with (serialize_string (snd p)).
  rewrite !parse_serialize_string by now apply well_formed_is_string.
  rewrite !from_code_points_scalar_values by assumption.
  now destruct p.
Qed.

Lemma parse_serialize l : are_well_formed l = true -> parse (serialize l) = l.
Proof.
  unfold are_well_formed.
  induction l as [|p [|q tl] IH]; cbn [forallb]; intros H.
  - reflexivity.
  - apply andb_prop in H as [Hp _]. apply andb_prop in Hp as [Hn Hv].
    rewrite serialize_one. unfold parse.
    rewrite split_missing
      by (apply piece_free_of; [reflexivity|discriminate..]).
    cbn [List.filter]. rewrite piece_not_empty. cbn [negb map].
    now rewrite parse_pair_piece.
  - apply andb_prop in H as [Hp Htl]. apply andb_prop in Hp as [Hn Hv].
    rewrite serialize_cons. unfold parse in *.
    rewrite split_found
      by (apply piece_free_of; [reflexivity|discriminate..]).
    cbn [List.filter]. rewrite piece_not_empty. cbn [negb map].
    rewrite parse_pair_piece by assumption. f_equal. now apply IH.
Qed.

Lemma serialize_free_of sep l :
  unreserved sep = false -> sep <> "+"%char -> sep <> "%"%char ->
  sep <> "="%char -> sep <> "&"%char ->
  free_of sep (serialize l) = true.
Proof.
  intros Hu Hplus Hpct Heq Hamp.
  induction l as [|p [|q tl] IH].
  - reflexivity.
  - rewrite serialize_one. now apply piece_free_of.
  - rewrite serialize_cons, free_of_append, piece_free_of by assumption.
    cbn [free_of]. rewrite IH.
    destruct (Ascii.eqb_spec "&" sep) as [E|_]; [now subst sep|reflexivity].
Qed.

Lemma serialize_not_empty p l : serialize (p :: l) <> "".
Proof.
  destruct l as [|q tl].
  - rewrite serialize_one. intros E.
    pose proof (piece_not_empty p) as H. rewrite E in H. discriminate.
  - rewrite serialize_cons. unfold piece.
    destruct (serialize_string (fst p)); discriminate.
Qed.

(** X4.  At an address whose query is the serialisation of any list of
    parameters (any names and values without unpaired surrogates, in any
    order, with or without repeats), [getSessionFromUrl] returns the
    value of the first parameter named [session], unchanged, and [null]
    when the list has none. *)
Theorem getSessionFromUrl_reads_first_session
    (href : string) (l : list (JsString * JsString)) :
  are_well_formed l = true ->
  getSessionFromUrl
    (base (new_URL href) +:+ ("?" +:+ serialize l)
     +:+ match fragment (new_URL href) with
         | Some f => "#" +:+ f
         | None => ""
         end)
  = get l (literal "session").
Proof.
  intros Hl.
  destruct (new_URL_base_free href) as [Hb1 Hb2].
  assert (Hq : free_of "#" (serialize l) = true).
  { apply serialize_free_of; [reflexivity|discriminate..]. }
  destruct l as [|p l].
  - unfold getSessionFromUrl.
    rewrite (new_URL_with_query _ _ _ Hb1 Hb2 Hq). reflexivity.
  - rewrite getSessionFromUrl_with_query;
      [|assumption..|apply serialize_not_empty].
    now rewrite parse_serialize.
Qed.

Lemma getSessionFromUrl_reads_first_session_witness :
  getSessionFromUrl
    (base (new_URL "https://demo.example/job-portal/#top")
     +:+ ("?" +:+ serialize [(literal "lang", literal "de");
                             (literal "session", grin);
                             (literal "session", literal "later")])
     +:+ match fragment (new_URL "https://demo.example/job-portal/#top") with
         | Some f => "#" +:+ f
         | None => ""
         end)
  = get [(literal "lang", literal "de"); (literal "session", grin);
         (literal "session", literal "later")] (literal "session").
Proof.
  apply (getSessionFromUrl_reads_first_session
           "https://demo.example/job-portal/#top"
           [(literal "lang", literal "de"); (literal "session", grin);
            (literal "session", literal "later")]).
  reflexivity.
Defined.

Example getSessionFromUrl_first_of_two :
  getSessionFromUrl
    "https://demo.example/job-portal/?lang=de&session=%F0%9F%98%80&session=later#top"
  = Some grin.
Proof. reflexivity. Qed.

(** *** The query is made of safe bytes only *)






End UrlMore.

(** * Further properties of the session poller *)

Module PollerMore.
Import Poller PollerFacts.
Import Scenarios.

(** *** The log of one round *)

Section Logs.

Variable env : Env.
Variable id : string.
Variable options : WaitOptions.

Abbreviation the_timeout := (default 300000 (timeout options)).
Abbreviation the_interval := (default 1500 (interval options)).

Lemma trace_asked w :
  trace (asked env id w)
  = trace w ++ [EvDateNow (clock env (clock_reads w));
                EvFetch id (backend env (fetch_calls w) id)].
Proof. rewrite asked_eq. cbn [trace]. now rewrite <- app_assoc. Qed.

Lemma trace_told s w :
  trace (told env id (onUpdate options) s w)
  = trace (asked env id w) ++ notify_events options (update_calls w) s.
Proof.
  rewrite told_eq. unfold notify_events.
  destruct (onUpdate options); [reflexivity|now rewrite app_nil_r].
Qed.

Lemma notify_returned s s' w :
  fst (notify (onUpdate options) s (asked env id w)) = Normal s' ->
  shown options (update_calls w) s = inr s'.
Proof.
  rewrite notify_outcome. unfold shown.
  destruct (match onUpdate options with
            | Some f => f (update_calls w) s
            | None => inr s
            end); congruence.
Qed.

Lemma notify_thrown s e w :
  fst (notify (onUpdate options) s (asked env id w)) = Throw e ->
  shown options (update_calls w) s = inl e.
Proof.
  rewrite notify_outcome. unfold shown.
  destruct (match onUpdate options with
            | Some f => f (update_calls w) s
            | None => inr s
            end); congruence.
Qed.

Lemma told_aside s w :
  exists notice,
    trace (told env id (onUpdate options) s w)
    = trace (asked env id w) ++ notice /\
    Forall (fun e => is_fetch e = false /\ is_sleep e = false) notice.
Proof.
  rewrite told_eq. destruct (onUpdate options) as [f|].
  - eexists. split; [reflexivity|]. now repeat constructor.
  - exists []. split; [now rewrite app_nil_r|constructor].
Qed.

(** *** How a poll can end, and nothing else *)

(** The observer has been called as often as the log says. *)
Abbreviation counted w := (update_calls w = length (observed (trace w))).

Lemma told_counted s w : counted w -> counted (told env id (onUpdate options) s w).
Proof.
  intros H. rewrite told_eq, asked_eq.
  destruct (onUpdate options); proj; rewrite !observed_app, !length_app;
    cbn; lia.
Qed.

Lemma told_ends_with s r w :
  counted w ->
  backend env (fetch_calls w) id = inr s ->
  shown options (update_calls w) s = r ->
  ends_with id options s r (trace (told env id (onUpdate options) s w)).
Proof.
  intros Hw Hb Hr.
  exists (trace w ++ [EvDateNow (clock env (clock_reads w))]).
  rewrite observed_app. cbn [observed flat_map]. rewrite app_nil_r, <- Hw.
  split; [|exact Hr].
  rewrite trace_told, trace_asked, Hb. now rewrite <- !app_assoc.
Qed.

Lemma poll_accounts_for fuel w :
  counted w ->
  accounts_for env id options
    (fst (poll env fuel id (onUpdate options) the_timeout the_interval
               (clock env 0) w))
    (trace (snd (poll env fuel id (onUpdate options) the_timeout the_interval
                      (clock env 0) w))).
Proof.
  apply (poll_rule env id (onUpdate options) the_timeout the_interval
           (clock env 0) (fun w0 => counted w0)
           (fun c w' => accounts_for env id options c (trace w')));
    cbn [accounts_for].
  - trivial.
  - intros w0 _ Hc. left. split; [reflexivity|].
    exists (trace w0), (clock env (clock_reads w0)).
    split; [reflexivity|]. apply Z.ltb_ge in Hc. exact Hc.
  - intros w0 e _ _ Hb. right. right. left.
    rewrite trace_asked, Hb.
    exists (trace w0 ++ [EvDateNow (clock env (clock_reads w0))]).
    now rewrite <- app_assoc.
  - intros w0 s e Hw _ Hb Hn. right. right. right.
    exists s. apply told_ends_with; [exact Hw|exact Hb|].
    now apply notify_thrown.
  - intros w0 s s' Hw _ Hb Hn Hs. split; [exact Hs|].
    exists s. apply told_ends_with; [exact Hw|exact Hb|].
    now apply notify_returned.
  - intros w0 s s' Hw _ Hb Hn _ Hx. right. left.
    exists s, s'. split; [reflexivity|]. split; [exact Hx|].
    apply told_ends_with; [exact Hw|exact Hb|].
    now apply notify_returned.
  - intros w0 s s' Hw _ _ _ _. rewrite slept_eq. proj.
    rewrite observed_app, length_app. cbn.
    pose proof (told_counted s w0 Hw). lia.
Qed.

(** *** One session, one interval, one sleep between two fetches *)

Lemma sleeps_app tr1 tr2 : sleeps (tr1 ++ tr2) = (sleeps tr1 + sleeps tr2)%nat.
Proof. unfold sleeps. now rewrite List.filter_app, length_app. Qed.

Lemma quiet_count notice :
  Forall (fun e => is_fetch e = false /\ is_sleep e = false) notice ->
  fetch_attempts notice = 0%nat /\ sleeps notice = 0%nat /\
  single_minded id the_interval notice.
Proof.
  induction 1 as [|e l [He1 He2] _ (IH1 & IH2 & IH3)].
  - repeat split. constructor.
  - unfold fetch_attempts, sleeps in *. cbn [List.filter].
    rewrite He1, He2. repeat split; [exact IH1|exact IH2|].
    constructor; [|exact IH3]. now destruct e.
Qed.

Abbreviation steady := (steady id the_interval).
Abbreviation settled := (settled id the_interval).

Lemma steady_asked w :
  steady w ->
  single_minded id the_interval (trace (asked env id w)) /\
  fetch_attempts (trace (asked env id w)) = S (sleeps (trace (asked env id w))).
Proof.
  intros [Hm Hc]. rewrite trace_asked. split.
  - apply Forall_app. split; [exact Hm|]. now repeat constructor.
  - rewrite fetch_attempts_app, sleeps_app. cbn. lia.
Qed.

Lemma steady_told s w :
  steady w ->
  single_minded id the_interval (trace (told env id (onUpdate options) s w)) /\
  fetch_attempts (trace (told env id (onUpdate options) s w))
  = S (sleeps (trace (told env id (onUpdate options) s w))).
Proof.
  intros Hw. destruct (steady_asked w Hw) as [Hm Hc].
  destruct (told_aside s w) as (notice & -> & Hn).
  destruct (quiet_count notice Hn) as (H1 & H2 & H3).
  split.
  - apply Forall_app. now split.
  - rewrite fetch_attempts_app, sleeps_app, H1, H2. lia.
Qed.

Lemma poll_settled fuel w :
  steady w ->
  settled
    (fst (poll env fuel id (onUpdate options) the_timeout the_interval
               (clock env 0) w))
    (snd (poll env fuel id (onUpdate options) the_timeout the_interval
               (clock env 0) w)).
Proof.
  apply (poll_rule env id (onUpdate options) the_timeout the_interval
           (clock env 0) steady settled).
  - intros w0 [Hm Hc]. split; [exact Hm|now symmetry].
  - intros w0 [Hm Hc] _. rewrite checked_eq. split; cbn [trace].
    + apply Forall_app. split; [exact Hm|]. now repeat constructor.
    + rewrite fetch_attempts_app, sleeps_app. cbn. lia.
  - intros w0 e Hw _ _. destruct (steady_asked w0 Hw) as [Hm Hc].
    split; [exact Hm|]. lia.
  - intros w0 s e Hw _ _ _. destruct (steady_told s w0 Hw) as [Hm Hc].
    split; [exact Hm|]. lia.
  - intros w0 s s' Hw _ _ _ _. exact (steady_told s w0 Hw).
  - intros w0 s s' Hw _ _ _ _ _. destruct (steady_told s w0 Hw) as [Hm Hc].
    split; [exact Hm|]. lia.
  - intros w0 s s' Hw _ _ _ _. destruct (steady_told s w0 Hw) as [Hm Hc].
    rewrite slept_eq. split; cbn [trace].
    + apply Forall_app. split; [exact Hm|]. now repeat constructor.
    + rewrite fetch_attempts_app, sleeps_app, Hc. cbn. lia.
Qed.

(** *** A poll that runs out of fuel has fetched in every round *)

Lemma poll_diverges fuel w :
  fst (poll env fuel id (onUpdate options) the_timeout the_interval
            (clock env 0) w) = Diverge ->
  fetch_calls
    (snd (poll env fuel id (onUpdate options) the_timeout the_interval
               (clock env 0) w))
  = (fetch_calls w + fuel)%nat.
Proof.
  induction fuel as [|fuel IH] in w |- *; [intros _; cbn; lia|].
  cbn [poll]. rewrite bind_Date_now.
  destruct (_ <? _); [|discriminate].
  destruct (backend env (fetch_calls w) id) as [e|s] eqn:Hb.
  { rewrite (bind_getSessionStatus_err _ _ e) by exact Hb. discriminate. }
  rewrite (bind_getSessionStatus_ok _ _ s) by exact Hb.
  assert (Hgo : forall (s' : Session) w0,
    fetch_calls w0 = S (fetch_calls w) ->
    fst ((if (status s' =? "completed")%string
             || (status s' =? "fetched")%string
          then ret s'
          else if (status s' =? "failed")%string
                  || (status s' =? "expired")%string
               then throw (Error ("Session " +:+ status s'))
               else await_setTimeout the_interval ;;;
                    poll env fuel id (onUpdate options) the_timeout
                         the_interval (clock env 0)) w0) = Diverge ->
    fetch_calls
      (snd ((if (status s' =? "completed")%string
                || (status s' =? "fetched")%string
             then ret s'
             else if (status s' =? "failed")%string
                     || (status s' =? "expired")%string
                  then throw (Error ("Session " +:+ status s'))
                  else await_setTimeout the_interval ;;;
                       poll env fuel id (onUpdate options) the_timeout
                            the_interval (clock env 0)) w0))
    = (fetch_calls w + S fuel)%nat).
  { intros s' w0 Hw0.
    destruct (_ || _); [discriminate|].
    destruct (_ || _); [discriminate|].
    rewrite bind_await_setTimeout. intros H.
    rewrite (IH _ H). cbn [fetch_calls]. lia. }
  destruct (onUpdate options) as [f|].
  - destruct (f (update_calls w) s) as [e|s'] eqn:Hcall.
    { rewrite (bind_call_onUpdate_err _ _ e) by exact Hcall. discriminate. }
    rewrite (bind_call_onUpdate_ok _ _ s') by exact Hcall. now apply Hgo.
  - rewrite bind_ret. now apply Hgo.
Qed.

End Logs.

(** X6.  However the backend answers, whatever the observer does (return,
    throw, write to the Session it is shown) and however the clock runs,
    a poll ends in one of five ways and in no other.  It returns the
    Session it fetched last, as the observer left it, and the status that
    Session then has is completed or fetched.  Or it throws: the timeout
    error, right after a reading of the clock that has reached the
    timeout; the error "Session <status>" for the status, failed or
    expired, that the Session fetched last has once the observer has
    returned; the very error with which its last fetch was rejected; or
    the very error that the observer threw when it was shown the Session
    fetched last.  In each case but the timeout the fetch, followed only
    by that one call of the observer, is the end of the log. *)
Theorem waitForSession_ends_in_one_of_five_ways
    (env : Env) (id : string) (options : WaitOptions) (fuel : nat) :
  accounts_for env id options
    (fst (run env fuel id options)) (trace (snd (run env fuel id options))).
Proof.
  unfold run, waitForSession. rewrite bind_Date_now.
  apply poll_accounts_for. reflexivity.
Qed.

(** X7.  A poll only ever asks for the session id it was given and only
    ever sleeps for the interval of its options.  It sleeps exactly once
    between two fetches, never before the first fetch and never after the
    last: the fetches are as many as the sleeps or one more, and exactly
    one more when the poll returns a Session. *)
Theorem waitForSession_sleeps_between_fetches
    (env : Env) (id : string) (options : WaitOptions) (fuel : nat) :
  single_minded id (default 1500 (interval options))
    (trace (snd (run env fuel id options))) /\
  (sleeps (trace (snd (run env fuel id options)))
   <= fetch_attempts (trace (snd (run env fuel id options)))
   <= S (sleeps (trace (snd (run env fuel id options)))))%nat /\
  (forall s, fst (run env fuel id options) = Normal s ->
     fetch_attempts (trace (snd (run env fuel id options)))
     = S (sleeps (trace (snd (run env fuel id options))))).
Proof.
  unfold run, waitForSession. rewrite bind_Date_now.
  unfold fresh. cbn [clock_reads fetch_calls update_calls trace].
  match goal with
  | |- context [poll _ _ _ _ _ _ _ ?w] => set (w1 := w)
  end.
  assert (Hw : steady id (default 1500 (interval options)) w1).
  { split; cbn [trace w1].
    - now repeat constructor.
    - reflexivity. }
  pose proof (poll_settled env id options fuel w1 Hw) as [Hm Hc].
  destruct (poll env fuel id (onUpdate options)
              (default 300000 (timeout options))
              (default 1500 (interval options)) (clock env 0) w1) as [c w'].
  cbn [fst snd] in *. split; [exact Hm|]. destruct c as [s| |].
  - split; [lia|]. intros. exact Hc.
  - split; [exact Hc|]. discriminate.
  - split; [lia|]. discriminate.
Qed.

Lemma run_diverges env id options fuel :
  fst (run env fuel id options) = Diverge ->
  fetch_calls (snd (run env fuel id options)) = fuel.
Proof.
  unfold run, waitForSession. rewrite bind_Date_now.
  intros H. exact (poll_diverges env id options fuel _ H).
Qed.

Lemma run_ends_by_deadline env id options m fuel :
  ~ in_budget env options m -> (m < fuel)%nat ->
  fst (run env fuel id options) <> Diverge /\
  (fetch_attempts (trace (snd (run env fuel id options))) <= m)%nat.
Proof.
  intros Hm Hfuel.
  destruct (consistent_run env id options fuel) as [Hfc _ _ Hbud _].
  split.
  - intros Hd. apply run_diverges in Hd. apply Hm, Hbud. lia.
  - rewrite <- Hfc.
    destruct (Nat.le_gt_cases
                (fetch_calls (snd (run env fuel id options))) m) as [H|H];
      [exact H|].
    exfalso. now apply Hm, Hbud.
Qed.

(** X8.  Once the loop condition of some round [m] would read an elapsed
    time that has reached the timeout, the poll is over within [m] rounds
    whatever the backend and the observer do: it does not go on (with
    more than [m] units of fuel the model never runs out) and it has
    issued at most [m] fetches. *)
Theorem waitForSession_ends_by_the_deadline
    (env : Env) (id : string) (options : WaitOptions) (m fuel : nat) :
  ~ in_budget env options m ->
  (m < fuel)%nat ->
  fst (run env fuel id options) <> Diverge /\
  (fetch_attempts (trace (snd (run env fuel id options))) <= m)%nat.
Proof. apply run_ends_by_deadline. Qed.

Lemma waitForSession_ends_by_the_deadline_witness :
  fst (run env1 5 "s-1" (watching silent 15 10)) <> Diverge /\
  (fetch_attempts (trace (snd (run env1 5 "s-1" (watching silent 15 10))))
   <= 2)%nat.
Proof.
  apply (waitForSession_ends_by_the_deadline
           env1 "s-1" (watching silent 15 10) 2 5).
  - unfold in_budget, elapsed. vm_compute. discriminate.
  - lia.
Defined.

(** X9.  If every round takes at least [d] milliseconds (the k-th loop
    condition reads a clock at least [k * d] past [startTime], as it does
    when the sleep lasts [d]), then the poll is over after at most
    [ceil (timeout / d)] fetches, whatever the backend answers. *)
Theorem waitForSession_fetch_count_bound
    (env : Env) (id : string) (options : WaitOptions) (d : Z) (fuel : nat) :
  0 < d ->
  (forall k, clock env 0 + d * Z.of_nat k <= clock env (S k)) ->
  (rounds_within (default 300000%Z (timeout options)) d < fuel)%nat ->
  fst (run env fuel id options) <> Diverge /\
  (fetch_attempts (trace (snd (run env fuel id options)))
   <= rounds_within (default 300000%Z (timeout options)) d)%nat.
Proof.
  intros Hd Hclock Hfuel. apply run_ends_by_deadline; [|exact Hfuel].
  unfold in_budget, elapsed, rounds_within.
  set (t := default 300000 (timeout options)) in *.
  set (n := Z.to_nat ((t + d - 1) / d)).
  specialize (Hclock n).
  assert (Hn : t <= d * Z.of_nat n).
  { subst n. pose proof (Z.mul_succ_div_gt (t + d - 1) d Hd) as H1.
    destruct (Z.le_gt_cases 0 ((t + d - 1) / d)) as [Hq|Hq].
    - rewrite Z2Nat.id by exact Hq. lia.
    - replace (Z.to_nat ((t + d - 1) / d)) with 0%nat by lia.
      change (Z.of_nat 0) with 0. nia. }
  lia.
Qed.

Lemma waitForSession_fetch_count_bound_witness :
  fst (run env3 5 "s-1" (watching silent 50 20)) <> Diverge /\
  (fetch_attempts (trace (snd (run env3 5 "s-1" (watching silent 50 20))))
   <= rounds_within (default 300000%Z (timeout (watching silent 50 20))) 20)%nat.
Proof.
  apply (waitForSession_fetch_count_bound
           env3 "s-1" (watching silent 50 20) 20 5).
  - lia.
  - intros k. unfold env3, ticking. cbn [clock Nat.pred]. lia.
  - vm_compute. lia.
Defined.

Example rounds_within_scenario3 : rounds_within 50 20 = 3%nat.
Proof. reflexivity. Qed.

End PollerMore.

(** * Properties of the HTTP helpers and of the routes they call *)

Module HttpFacts.
Import Server Api Http.

Section Helpers.

Variable JSON_stringify : JsValue -> JsError + string.

(** The text that a route puts under [error] is the message of the error
    that the helper throws. *)
Lemma received_refusal {A : Type} fallback (r : Response) m :
  body r !! "error" = Some (JStr m) ->
  received (A := A) JSON_stringify fallback (refused r) = inl (Error m).
Proof. intros H. unfold received, refused, extractErrorMessage. now rewrite H. Qed.

Lemma internal_error_text e :
  body (internal_error e) !! "error"
  = Some (JStr (or_else (message e) "Internal Server Error")).
Proof. reflexivity. Qed.

Lemma bad_request_text msg : body (bad_request msg) !! "error" = Some (JStr msg).
Proof. reflexivity. Qed.

Lemma or_else_not_empty a b : b <> "" -> or_else a b <> "".
Proof.
  intros Hb. unfold or_else.
  destruct (String.eqb_spec a ""); [exact Hb|assumption].
Qed.

(** X10.  [getSessionStatus] never fulfils its promise with a response
    that is not ok: it throws a new [Error].  The message is "Request
    failed with status N" when the body is not JSON; the body itself when
    it is a string; the [error] property of the body when that is a
    string, even if there is a [message] too; else its [message]
    property when that is a string; and the fallback "Failed to get
    session" when the body is [null], a boolean or a number. *)
Theorem getSessionStatus_not_ok
    (fetch : string -> JsError + HttpResponse Poller.Session)
    (sessionId : string) (status : Z) (json : JsError + JsValue) :
  fetch ("/api/session/" +:+ sessionId) = inr (NotOk status json) ->
  exists msg,
    getSessionStatus JSON_stringify fetch sessionId = inl (Error msg) /\
    (forall e, json = inl e ->
       msg = "Request failed with status " +:+ pretty status) /\
    (forall text, json = inr (JStr text) -> msg = text) /\
    (forall err e, json = inr (JObj err) -> err !! "error" = Some (JStr e) ->
       msg = e) /\
    (forall err m, json = inr (JObj err) ->
       (forall e, err !! "error" <> Some (JStr e)) ->
       err !! "message" = Some (JStr m) -> msg = m) /\
    (forall v, json = inr v ->
       match v with JNull | JBool _ | JNum _ => True | _ => False end ->
       msg = "Failed to get session").
Proof.
  intros Hf. unfold getSessionStatus, received. rewrite Hf.
  destruct json as [e0|v]; eexists; (split; [reflexivity|]).
  - split; [reflexivity|]. repeat split; intros; discriminate.
  - split; [discriminate|]. split; [|split; [|split]].
    + intros text [= ->]. reflexivity.
    + intros err e [= ->] He. cbn [extractErrorMessage]. now rewrite He.
    + intros err m [= ->] Hne Hm. cbn [extractErrorMessage]. rewrite Hm.
      destruct (err !! "error") as [[]|]; try reflexivity.
      now exfalso; eapply Hne.
    + intros v' [= <-] Hv. now destruct v.
Qed.

End Helpers.

Lemma getSessionStatus_not_ok_witness :
  exists msg,
    getSessionStatus (fun _ => inr "{}")
      (fun _ => inr (NotOk 502 (inl (mkJsError "SyntaxError" "Unexpected token"))))
      "s-1"
    = inl (Error msg) /\
    (forall e, @inl JsError JsValue (mkJsError "SyntaxError" "Unexpected token")
               = inl e ->
       msg = "Request failed with status " +:+ pretty 502) /\
    (forall text,
       @inl JsError JsValue (mkJsError "SyntaxError" "Unexpected token")
       = inr (JStr text) -> msg = text) /\
    (forall err e,
       @inl JsError JsValue (mkJsError "SyntaxError" "Unexpected token")
       = inr (JObj err) -> err !! "error" = Some (JStr e) -> msg = e) /\
    (forall err m,
       @inl JsError JsValue (mkJsError "SyntaxError" "Unexpected token")
       = inr (JObj err) ->
       (forall e, err !! "error" <> Some (JStr e)) ->
       err !! "message" = Some (JStr m) -> msg = m) /\
    (forall v,
       @inl JsError JsValue (mkJsError "SyntaxError" "Unexpected token")
       = inr v ->
       match v with JNull | JBool _ | JNum _ => True | _ => False end ->
       msg = "Failed to get session").
Proof.
  apply (getSessionStatus_not_ok (fun _ => inr "{}")
           (fun _ => inr (NotOk 502
                            (inl (mkJsError "SyntaxError" "Unexpected token"))))
           "s-1" 502 (inl (mkJsError "SyntaxError" "Unexpected token"))).
  reflexivity.
Defined.

Lemma received_delivered {A : Type} JSON_stringify fallback
    (read : gmap string JsValue -> A) (r : Response) m :
  ok_status (statusCode r) = false ->
  body r !! "error" = Some (JStr m) ->
  received JSON_stringify fallback (delivered read r) = inl (Error m).
Proof.
  intros Hs H. unfold received, delivered, extractErrorMessage.
  now rewrite Hs, H.
Qed.

(** X11.  From the backend to the caller of the poll.  When, after [n]
    rounds that keep polling, the lookup of the session fails on the
    server with an error [e], the route answers with status 500, which is
    not ok; [getSessionStatus] turns the answer into an [Error] and
    [waitForSession] throws it: its message is the message of [e], or
    "Internal Server Error" when that message is empty; in either case it
    is not empty.  No request follows. *)
Theorem backend_failure_ends_the_poll
    (JSON_stringify : JsValue -> JsError + string) (clock : nat -> Z)
    (fetch : nat -> string -> JsError + HttpResponse Poller.Session)
    (read : gmap string JsValue -> Poller.Session)
    (client : Client) (id : string) (options : Poller.WaitOptions)
    (n : nat) (e : JsError) (fuel : nat) :
  Poller.keeps_polling (over_http JSON_stringify clock fetch) id options n ->
  Poller.in_budget (over_http JSON_stringify clock fetch) options n ->
  client id = inl e ->
  fetch n ("/api/session/" +:+ id) = delivered read (get_session client id) ->
  (n < fuel)%nat ->
  statusCode (get_session client id) = 500 /\
  ok_status (statusCode (get_session client id)) = false /\
  exists w,
    Poller.run (over_http JSON_stringify clock fetch) fuel id options
    = (Throw (Error (or_else (message e) "Internal Server Error")), w) /\
    Poller.fetch_attempts (Poller.trace w) = S n /\
    or_else (message e) "Internal Server Error" <> "".
Proof.
  intros Hk Hb Hc Hf Hfuel.
  set (env := over_http JSON_stringify clock fetch) in *.
  assert (Hroute : get_session client id = internal_error e).
  { unfold get_session. now rewrite Hc. }
  split; [now rewrite Hroute|]. split; [now rewrite Hroute|].
  assert (Hbackend : Poller.backend env n id
            = inl (Error (or_else (message e) "Internal Server Error"))).
  { cbn [env over_http Poller.backend]. unfold getSessionStatus.
    rewrite Hf, Hroute. now apply received_delivered. }
  assert (Hrun : Poller.run env fuel id options
            = (Throw (Error (or_else (message e) "Internal Server Error")),
               Poller.mkWorld (S (S n)) (S n) (Poller.notified options n)
                 (Poller.trace (Poller.after_rounds env id options n)
                  ++ [Poller.EvDateNow (Poller.clock env (S n));
                      Poller.EvFetch id
                        (inl (Error (or_else (message e)
                                             "Internal Server Error")))]))).
  { rewrite (PollerFacts.enough_fuel n fuel Hfuel).
    rewrite PollerFacts.run_rounds by exact Hk.
    now apply PollerFacts.last_round_fetch_error. }
  eexists. split; [exact Hrun|]. split.
  - pose proof (PollerFacts.consistent_run env id options fuel) as Hco.
    rewrite Hrun in Hco. destruct Hco as [Hfc _ _ _ _].
    cbn in Hfc. symmetry. exact Hfc.
  - now apply or_else_not_empty.
Qed.

Lemma backend_failure_ends_the_poll_witness :
  statusCode (get_session (fun _ => inl (Error "Session not found")) "s-1")
  = 500 /\
  ok_status
    (statusCode (get_session (fun _ => inl (Error "Session not found")) "s-1"))
  = false /\
  exists w,
    Poller.run (over_http (fun _ => inr "{}") (Poller.Scenarios.ticking 10)
                          flaky)
               2 "s-1" (Poller.mkWaitOptions None None None)
    = (Throw (Error (or_else (message (Error "Session not found"))
                             "Internal Server Error")), w) /\
    Poller.fetch_attempts (Poller.trace w) = 2%nat /\
    or_else (message (Error "Session not found")) "Internal Server Error"
    <> "".
Proof.
  apply (backend_failure_ends_the_poll
           (fun _ => inr "{}") (Poller.Scenarios.ticking 10) flaky
           sample_read (fun _ => inl (Error "Session not found")) "s-1"
           (Poller.mkWaitOptions None None None) 1
           (Error "Session not found") 2).
  - intros k Hk. destruct k as [|k]; [|lia]. split.
    + vm_compute. reflexivity.
    + eexists. eexists. split; [reflexivity|]. split; reflexivity.
  - vm_compute. reflexivity.
  - reflexivity.
  - reflexivity.
  - lia.
Defined.

End HttpFacts.

Module ApiFacts.
Import Server Api Http HttpFacts.

Lemma not_inherited key :
  ~ In key Object_prototype ->
  existsb (String.eqb key) Object_prototype = false.
Proof.
  intros H. destruct (existsb _ _) eqn:E; [|reflexivity].
  apply existsb_exists in E as (x & Hin & Heq).
  apply String.eqb_eq in Heq. now subst.
Qed.

(** X12.  A use case that is neither configured nor the name of a
    property that every object inherits is refused by [POST /api/verify]
    with status 400 and the text "Unknown use case: <name>", whatever the
    SDK would do (it is not consulted); [createVerificationRequest] then
    throws an [Error] with exactly that text. *)
Theorem unknown_use_case_is_refused
    (JSON_stringify : JsValue -> JsError + string) (A : Type)
    (sdk : Sdk) (name : string) (redirect : option string)
    (fetch : VerifyBody -> JsError + HttpResponse A) :
  own_property USE_CASES name = None ->
  ~ In name Object_prototype ->
  fetch (mkVerifyBody name redirect)
  = refused (verify sdk (mkVerifyBody name redirect)) ->
  verify sdk (mkVerifyBody name redirect)
  = bad_request ("Unknown use case: " +:+ name) /\
  statusCode (verify sdk (mkVerifyBody name redirect)) = 400 /\
  createVerificationRequest JSON_stringify fetch name redirect
  = inl (Error ("Unknown use case: " +:+ name)).
Proof.
  intros Hown Hproto Hfetch.
  assert (Hv : verify sdk (mkVerifyBody name redirect)
               = bad_request ("Unknown use case: " +:+ name)).
  { unfold verify, property. cbn [useCase].
    now rewrite Hown, (not_inherited name Hproto). }
  split; [exact Hv|]. split; [now rewrite Hv|].
  unfold createVerificationRequest. rewrite Hfetch, Hv.
  apply received_refusal, bad_request_text.
Qed.

Lemma unknown_use_case_is_refused_witness :
  verify quiet_sdk (mkVerifyBody "car-rental" None)
  = bad_request ("Unknown use case: " +:+ "car-rental") /\
  statusCode (verify quiet_sdk (mkVerifyBody "car-rental" None)) = 400 /\
  createVerificationRequest (A := unit) (fun _ => inr "{}")
    (fun b => refused (verify quiet_sdk b)) "car-rental" None
  = inl (Error ("Unknown use case: " +:+ "car-rental")).
Proof.
  apply (unknown_use_case_is_refused (fun _ => inr "{}") unit
           quiet_sdk "car-rental" None).
  - reflexivity.
  - cbn. intros H. decompose [or] H; discriminate || assumption.
  - reflexivity.
Defined.

(** X13.  Every use case that [GET /api/use-cases] lists is configured:
    [POST /api/verify] and [POST /api/dc-api/start] never answer 400 for
    it, and the name listed is the configured one. *)
Theorem listed_use_cases_are_accepted (id name : string) :
  In (json_object [("id", Some (JStr id)); ("name", Some (JStr name))])
     use_cases ->
  exists cfg,
    property USE_CASES id = Own cfg /\ useCaseName cfg = name /\
    (forall sdk redirect,
       statusCode (verify sdk (mkVerifyBody id redirect)) <> 400) /\
    (forall sdk, statusCode (dc_api_start sdk id) <> 400).
Proof.
  intros Hin.
  assert (Hid : forall id' name',
    json_object [("id", Some (JStr id)); ("name", Some (JStr name))]
    = json_object [("id", Some (JStr id')); ("name", Some (JStr name'))] ->
    id = id' /\ name = name').
  { intros id' name' H.
    pose proof (f_equal (fun m : gmap string JsValue => m !! "id") H) as H1.
    pose proof (f_equal (fun m : gmap string JsValue => m !! "name") H) as H2.
    unfold json_object in H1, H2. cbn [fold_right fst snd] in H1, H2.
    simplify_map_eq. now split. }
  assert (Hok : forall cfg, property USE_CASES id = Own cfg ->
    (forall sdk redirect,
       statusCode (verify sdk (mkVerifyBody id redirect)) <> 400) /\
    (forall sdk, statusCode (dc_api_start sdk id) <> 400)).
  { intros cfg Hp. split.
    - intros sdk redirect. unfold verify. cbn [useCase]. rewrite Hp.
      destruct (createPresentationRequest sdk _ _); discriminate.
    - intros sdk. unfold dc_api_start. rewrite Hp.
      destruct (createDcApiRequestForBrowser sdk _); discriminate. }
  unfold use_cases, USE_CASES in Hin. cbn [map fst snd useCaseName] in Hin.
  repeat (destruct Hin as [Hin|Hin];
          [symmetry in Hin; apply Hid in Hin as [-> ->];
           eexists; split; [reflexivity|]; split; [reflexivity|];
           eapply Hok; reflexivity|]).
  destruct Hin.
Qed.

Lemma listed_use_cases_are_accepted_witness :
  exists cfg,
    property USE_CASES "job-portal" = Own cfg /\
    useCaseName cfg = "Job Portal - Diploma & Identity Verification" /\
    (forall sdk redirect,
       statusCode (verify sdk (mkVerifyBody "job-portal" redirect)) <> 400) /\
    (forall sdk, statusCode (dc_api_start sdk "job-portal") <> 400).
Proof.
  apply (listed_use_cases_are_accepted
           "job-portal" "Job Portal - Diploma & Identity Verification").
  unfold use_cases, USE_CASES. cbn [map fst snd useCaseName].
  do 5 right. left. reflexivity.
Defined.

Lemma offer_body_txCode a b c :
  body (mkResponse 200
          (json_object [("uri", a); ("sessionId", b); ("txCode", c)]))
  !! "txCode" = c.
Proof.
  cbn [body]. unfold json_object. cbn [fold_right fst snd].
  destruct a, b, c; now simplify_map_eq.
Qed.

Lemma error_body_has_no_txCode r :
  (exists e, r = internal_error e) \/ (exists msg, r = bad_request msg) ->
  body r !! "txCode" = None.
Proof. intros [[e ->]|[msg ->]]; reflexivity. Qed.

(** X14.  [POST /api/issue] hands out a transaction code only when the
    [useTxCode] of the body is truthy.  Otherwise the response has no
    [txCode] and does not depend on what [generateTxCode] would have
    produced; when it is truthy and the offer is created, the response
    carries the generated code.  A request sent by the helper
    [createIssuanceOffer] has no [useTxCode], whatever its claims: its
    result cannot depend on a generated code. *)
Theorem txCode_only_when_asked
    (JSON_stringify : JsValue -> JsError + string) (A : Type)
    (sdk : Sdk) (generated : string) :
  (forall request,
     truthy (useTxCode request) = false ->
     body (issue sdk generated request) !! "txCode" = None /\
     forall other, issue sdk other request = issue sdk generated request)
  /\
  (forall request,
     truthy (useTxCode request) = true ->
     statusCode (issue sdk generated request) = 200 ->
     body (issue sdk generated request) !! "txCode" = Some (JStr generated))
  /\
  (forall (deliver : Response -> JsError + HttpResponse A) id claims other,
     Http.createIssuanceOffer JSON_stringify
       (fun b => deliver (issue sdk generated b)) id claims
     = Http.createIssuanceOffer JSON_stringify
         (fun b => deliver (issue sdk other b)) id claims).
Proof.
  assert (Hsame : forall b other, truthy (useTxCode b) = false ->
            issue sdk other b = issue sdk generated b).
  { intros b other H. unfold issue. now rewrite H. }
  split; [|split].
  - intros b H. split; [|intros other; now apply Hsame].
    unfold issue. rewrite H.
    destruct (property CREDENTIALS (credentialId b));
      [destruct (Api.createIssuanceOffer sdk _)|
       destruct (Api.createIssuanceOffer sdk _)|];
      first [apply offer_body_txCode
            | apply error_body_has_no_txCode; eauto].
  - intros b H Hst. unfold issue in *. rewrite H in *.
    destruct (property CREDENTIALS (credentialId b));
      [destruct (Api.createIssuanceOffer sdk _)|
       destruct (Api.createIssuanceOffer sdk _)|];
      try discriminate; apply offer_body_txCode.
  - intros deliver id claims other.
    unfold Http.createIssuanceOffer. now rewrite (Hsame _ other).
Qed.

Lemma txCode_only_when_asked_witness :
  (body (issue quiet_sdk "493027"
           (mkIssueBody "loyalty-card" (Some ∅) (Some (JBool false))))
   !! "txCode" = None /\
   forall other,
     issue quiet_sdk other
       (mkIssueBody "loyalty-card" (Some ∅) (Some (JBool false)))
     = issue quiet_sdk "493027"
         (mkIssueBody "loyalty-card" (Some ∅) (Some (JBool false))))
  /\
  body (issue quiet_sdk "493027"
          (mkIssueBody "loyalty-card" (Some ∅) (Some (JBool true))))
  !! "txCode" = Some (JStr "493027").
Proof.
  split.
  - apply (proj1 (txCode_only_when_asked
                    (fun _ => inr "{}") unit quiet_sdk "493027")).
    reflexivity.
  - apply (proj1 (proj2 (txCode_only_when_asked
                           (fun _ => inr "{}") unit quiet_sdk "493027"))).
    + reflexivity.
    + reflexivity.
Defined.

(** X15.  [POST /api/dc-api/complete] refuses a body whose [responseUri]
    or [walletResponse] is missing or falsy (the empty string, for one)
    with status 400, without handing anything to the SDK;
    [completeDcApiVerification] called with an empty string then throws an
    [Error] with the text of the refusal.  When both are truthy, the SDK
    is given exactly the two values and the answer of a successful call
    is its result, as it is. *)
Theorem dc_api_complete_checks_its_body
    (JSON_stringify : JsValue -> JsError + string) (A : Type) (sdk : Sdk) :
  (forall request,
     blank (responseUri request) || blank (walletResponse request) = true ->
     dc_api_complete sdk request
     = bad_request "Missing responseUri or walletResponse")
  /\
  (forall (fetch : CompleteBody -> JsError + HttpResponse A) uri response,
     uri = "" \/ response = "" ->
     fetch (mkCompleteBody (Some (JStr uri)) (Some (JStr response)))
     = refused (dc_api_complete sdk
                  (mkCompleteBody (Some (JStr uri)) (Some (JStr response)))) ->
     completeDcApiVerification JSON_stringify fetch uri response
     = inl (Error "Missing responseUri or walletResponse"))
  /\
  (forall uri response result,
     truthy (Some uri) = true -> truthy (Some response) = true ->
     submitDcApiWalletResponse sdk uri response = inr result ->
     dc_api_complete sdk (mkCompleteBody (Some uri) (Some response))
     = mkResponse 200 result).
Proof.
  assert (H400 : forall b,
    blank (responseUri b) || blank (walletResponse b) = true ->
    dc_api_complete sdk b
    = bad_request "Missing responseUri or walletResponse").
  { intros b H. unfold dc_api_complete. now rewrite H. }
  split; [exact H400|]. split.
  - intros fetch uri response Hblank Hfetch.
    unfold completeDcApiVerification. rewrite Hfetch, H400.
    + apply received_refusal, bad_request_text.
    + cbn [responseUri walletResponse]. unfold blank.
      destruct Hblank as [-> | ->]; [reflexivity|].
      now rewrite orb_true_r.
  - intros uri response result Hu Hr Hs.
    unfold dc_api_complete, blank. cbn [responseUri walletResponse].
    rewrite Hu, Hr.
    change (default JNull (Some uri)) with uri.
    change (default JNull (Some response)) with response.
    cbn [negb orb]. now rewrite Hs.
Qed.

Lemma dc_api_complete_checks_its_body_witness :
  dc_api_complete quiet_sdk
    (mkCompleteBody (Some (JStr "https://backend/response")) None)
  = bad_request "Missing responseUri or walletResponse"
  /\
  completeDcApiVerification (A := unit) (fun _ => inr "{}")
    (fun b => refused (dc_api_complete quiet_sdk b))
    "https://backend/response" ""
  = inl (Error "Missing responseUri or walletResponse")
  /\
  dc_api_complete verifying_sdk
    (mkCompleteBody (Some (JStr "https://backend/response"))
                    (Some (JStr "token")))
  = mkResponse 200 {[ "presentation" := JNull ]}.
Proof.
  split; [|split].
  - apply (proj1 (dc_api_complete_checks_its_body
                    (fun _ => inr "{}") unit quiet_sdk)).
    reflexivity.
  - apply (proj1 (proj2 (dc_api_complete_checks_its_body
                           (fun _ => inr "{}") unit quiet_sdk))).
    + right. reflexivity.
    + reflexivity.
  - apply (proj2 (proj2 (dc_api_complete_checks_its_body
                           (fun _ => inr "{}") unit verifying_sdk))).
    + reflexivity.
    + reflexivity.
    + reflexivity.
Defined.

End ApiFacts.

Module DcApiFacts.
Import Api Http DcApi.

(** Reading which steps a concrete log holds. *)
Ltac tidy :=
  intros;
  repeat match goal with
  | H : _ \/ _ |- _ => destruct H
  | H : False |- _ => destruct H
  | H : Status _ = _ |- _ => discriminate H
  | H : Started _ = _ |- _ => discriminate H
  | H : Prompted _ = Submitted _ _ |- _ => discriminate H
  | H : Submitted _ _ = Prompted _ |- _ => discriminate H
  | H : Prompted _ = Prompted _ |- _ => injection H as <-
  | H : Submitted _ _ = Submitted _ _ |- _ => injection H as <- <-
  end;
  auto.

(** X16.  Whatever the server, the wallet and [onStatus] do, the steps of
    [verifyWithDcApi] come in one order only.  The log is always a
    beginning of: status "Starting verification...", the request to start,
    status "Opening wallet...", the prompt of the wallet, status
    "Processing verification...", the request to complete.  The wallet is
    prompted only when the API is available and the start request has
    returned request data, and then with the request object of that data;
    a response is submitted only when the wallet has returned it for that
    request object, and then to the response URI of that data. *)
Theorem verifyWithDcApi_steps_in_order
    (Result : Type) (JSON_stringify : JsValue -> JsError + string)
    (start : string -> JsError + HttpResponse DcApiRequestData)
    (complete : CompleteBody -> JsError + HttpResponse Result)
    (available : bool) (wallet : string -> JsError + option (option string))
    (useCase : string) (onStatus : option (string -> option JsError)) :
  exists data walletResponse,
    snd (verifyWithDcApi Result JSON_stringify start complete available
                         wallet useCase onStatus [])
    `prefix_of` script useCase onStatus data walletResponse /\
    (forall request,
       In (Prompted request)
          (snd (verifyWithDcApi Result JSON_stringify start complete
                                available wallet useCase onStatus [])) ->
       request = requestObject data /\
       available = true /\
       startDcApiVerification JSON_stringify start useCase = inr data) /\
    (forall uri response,
       In (Submitted uri response)
          (snd (verifyWithDcApi Result JSON_stringify start complete
                                available wallet useCase onStatus [])) ->
       uri = dataResponseUri data /\
       response = walletResponse /\
       wallet (requestObject data) = inr (Some (Some walletResponse))).
Proof.
  unfold verifyWithDcApi, and_then, report, callDcApi, doing, pure, fail,
    script, notes.
  destruct onStatus as [f|].
  - destruct (f "Starting verification..."); cbn.
    { exists sample_data, "". split; [eexists; reflexivity|]. split; cbn; tidy. }
    destruct (startDcApiVerification JSON_stringify start useCase)
      as [?|data] eqn:Hs; cbn.
    { exists sample_data, "". split; [eexists; reflexivity|]. split; cbn; tidy. }
    destruct (f "Opening wallet..."); cbn.
    { exists data, "". split; [eexists; reflexivity|]. split; cbn; tidy. }
    destruct available; cbn.
    2:{ exists data, "". split; [eexists; reflexivity|]. split; cbn; tidy. }
    destruct (wallet (requestObject data)) as [?|[[wr|]|]] eqn:Hw; cbn;
      try (exists data, ""; split; [eexists; reflexivity|]; split; cbn; tidy).
    destruct (f "Processing verification..."); cbn.
    { exists data, wr. split; [eexists; reflexivity|]. split; cbn; tidy. }
    destruct (completeDcApiVerification JSON_stringify complete
                (dataResponseUri data) wr); cbn;
      (exists data, wr; split; [exists []; reflexivity|]; split; cbn; tidy).
  - cbn.
    destruct (startDcApiVerification JSON_stringify start useCase)
      as [?|data] eqn:Hs; cbn.
    { exists sample_data, "". split; [eexists; reflexivity|]. split; cbn; tidy. }
    destruct available; cbn.
    2:{ exists data, "". split; [eexists; reflexivity|]. split; cbn; tidy. }
    destruct (wallet (requestObject data)) as [?|[[wr|]|]] eqn:Hw; cbn;
      try (exists data, ""; split; [eexists; reflexivity|]; split; cbn; tidy).
    destruct (completeDcApiVerification JSON_stringify complete
                (dataResponseUri data) wr); cbn;
      (exists data, wr; split; [exists []; reflexivity|]; split; cbn; tidy).
Qed.

Lemma verifyWithDcApi_steps_in_order_witness :
  exists data walletResponse,
    snd (verifyWithDcApi (gmap string JsValue) (fun _ => inr "{}")
           sample_start sample_complete true sample_wallet
           "job-portal" every_status [])
    `prefix_of` script "job-portal" every_status data walletResponse /\
    (forall request,
       In (Prompted request)
          (snd (verifyWithDcApi (gmap string JsValue) (fun _ => inr "{}")
                  sample_start sample_complete true sample_wallet
                  "job-portal" every_status [])) ->
       request = requestObject data /\
       true = true /\
       startDcApiVerification (fun _ => inr "{}") sample_start "job-portal"
       = inr data) /\
    (forall uri response,
       In (Submitted uri response)
          (snd (verifyWithDcApi (gmap string JsValue) (fun _ => inr "{}")
                  sample_start sample_complete true sample_wallet
                  "job-portal" every_status [])) ->
       uri = dataResponseUri data /\
       response = walletResponse /\
       sample_wallet (requestObject data) = inr (Some (Some walletResponse))).
Proof.
  exact (verifyWithDcApi_steps_in_order
           (gmap string JsValue) (fun _ => inr "{}") sample_start
           sample_complete true sample_wallet "job-portal" every_status).
Defined.

(** X17.  [verifyWithDcApi] returns a result only when every step went
    through: the server answered the start request with request data, the
    API is available, the wallet returned a credential with data, and the
    server answered the completion; the result is what the server
    returned for that very wallet response, sent to the response URI that
    the server itself had given, and the log is the whole script. *)
Theorem verifyWithDcApi_returns_after_every_step
    (Result : Type) (JSON_stringify : JsValue -> JsError + string)
    (start : string -> JsError + HttpResponse DcApiRequestData)
    (complete : CompleteBody -> JsError + HttpResponse Result)
    (available : bool) (wallet : string -> JsError + option (option string))
    (useCase : string) (onStatus : option (string -> option JsError))
    (result : Result) :
  fst (verifyWithDcApi Result JSON_stringify start complete available wallet
                       useCase onStatus []) = inr result ->
  exists data walletResponse,
    startDcApiVerification JSON_stringify start useCase = inr data /\
    available = true /\
    wallet (requestObject data) = inr (Some (Some walletResponse)) /\
    completeDcApiVerification JSON_stringify complete
      (dataResponseUri data) walletResponse = inr result /\
    snd (verifyWithDcApi Result JSON_stringify start complete available
                         wallet useCase onStatus [])
    = script useCase onStatus data walletResponse.
Proof.
  unfold verifyWithDcApi, and_then, report, callDcApi, doing, pure, fail,
    script, notes.
  destruct onStatus as [f|].
  - destruct (f "Starting verification..."); cbn; [discriminate|].
    destruct (startDcApiVerification JSON_stringify start useCase)
      as [?|data]; cbn; [discriminate|].
    destruct (f "Opening wallet..."); cbn; [discriminate|].
    destruct available; cbn; [|discriminate].
    destruct (wallet (requestObject data)) as [?|[[wr|]|]] eqn:Hw; cbn;
      try discriminate.
    destruct (f "Processing verification..."); cbn; [discriminate|].
    destruct (completeDcApiVerification JSON_stringify complete
                (dataResponseUri data) wr) as [?|r] eqn:Hc; cbn; [discriminate|].
    intros [= ->]. exists data, wr. now rewrite Hw, Hc.
  - cbn.
    destruct (startDcApiVerification JSON_stringify start useCase)
      as [?|data]; cbn; [discriminate|].
    destruct available; cbn; [|discriminate].
    destruct (wallet (requestObject data)) as [?|[[wr|]|]] eqn:Hw; cbn;
      try discriminate.
    destruct (completeDcApiVerification JSON_stringify complete
                (dataResponseUri data) wr) as [?|r] eqn:Hc; cbn; [discriminate|].
    intros [= ->]. exists data, wr. now rewrite Hw, Hc.
Qed.

Lemma verifyWithDcApi_returns_after_every_step_witness :
  exists data walletResponse,
    startDcApiVerification (fun _ => inr "{}") sample_start "job-portal"
    = inr data /\
    true = true /\
    sample_wallet (requestObject data) = inr (Some (Some walletResponse)) /\
    completeDcApiVerification (fun _ => inr "{}") sample_complete
      (dataResponseUri data) walletResponse
    = inr {[ "presentation" := JNull ]} /\
    snd (verifyWithDcApi (gmap string JsValue) (fun _ => inr "{}")
           sample_start sample_complete true sample_wallet
           "job-portal" every_status [])
    = script "job-portal" every_status data walletResponse.
Proof.
  apply (verifyWithDcApi_returns_after_every_step
           (gmap string JsValue) (fun _ => inr "{}") sample_start
           sample_complete true sample_wallet "job-portal" every_status
           {[ "presentation" := JNull ]}).
  reflexivity.
Defined.

(** No result, no prompt and no submission in a concrete outcome. *)
Ltac nothing :=
  split; [intros ? H; discriminate H|];
  split; [intros ? H; cbn in H; tidy|];
  split; [intros ? ? H; cbn in H; tidy|].

(** X18.  In a browser without the Digital Credentials API
    [verifyWithDcApi] never returns a result, never prompts the wallet and
    submits nothing, whatever the server and [onStatus] do.  That the API
    is missing is found out late: when the start request succeeds and
    [onStatus] does not throw, the server has been asked to start a
    verification before [callDcApi] throws "Digital Credentials API is not
    available in this browser". *)
Theorem verifyWithDcApi_unavailable
    (Result : Type) (JSON_stringify : JsValue -> JsError + string)
    (start : string -> JsError + HttpResponse DcApiRequestData)
    (complete : CompleteBody -> JsError + HttpResponse Result)
    (wallet : string -> JsError + option (option string))
    (useCase : string) (onStatus : option (string -> option JsError)) :
  (forall result,
     fst (verifyWithDcApi Result JSON_stringify start complete false wallet
                          useCase onStatus []) <> inr result) /\
  (forall request,
     ~ In (Prompted request)
          (snd (verifyWithDcApi Result JSON_stringify start complete false
                                wallet useCase onStatus []))) /\
  (forall uri response,
     ~ In (Submitted uri response)
          (snd (verifyWithDcApi Result JSON_stringify start complete false
                                wallet useCase onStatus []))) /\
  (forall data,
     startDcApiVerification JSON_stringify start useCase = inr data ->
     (forall f text, onStatus = Some f -> f text = None) ->
     verifyWithDcApi Result JSON_stringify start complete false wallet
                     useCase onStatus []
     = (inl (Error "Digital Credentials API is not available in this browser"),
        notes onStatus "Starting verification..."
        ++ [Started useCase]
        ++ notes onStatus "Opening wallet...")).
Proof.
  unfold verifyWithDcApi, and_then, report, callDcApi, doing, pure, fail,
    notes.
  destruct onStatus as [f|].
  - destruct (f "Starting verification...") eqn:H1; cbn.
    { nothing. intros data _ Hq. now rewrite (Hq f _ eq_refl) in H1. }
    destruct (startDcApiVerification JSON_stringify start useCase)
      as [?|data]; cbn.
    { nothing. discriminate. }
    destruct (f "Opening wallet...") eqn:H2; cbn.
    { nothing. intros data' _ Hq. now rewrite (Hq f _ eq_refl) in H2. }
    nothing. reflexivity.
  - cbn.
    destruct (startDcApiVerification JSON_stringify start useCase)
      as [?|data]; cbn.
    { nothing. discriminate. }
    nothing. reflexivity.
Qed.

Lemma verifyWithDcApi_unavailable_witness :
  verifyWithDcApi (gmap string JsValue) (fun _ => inr "{}") sample_start
                  sample_complete false sample_wallet "job-portal"
                  every_status []
  = (inl (Error "Digital Credentials API is not available in this browser"),
     notes every_status "Starting verification..."
     ++ [Started "job-portal"]
     ++ notes every_status "Opening wallet...").
Proof.
  apply (proj2 (proj2 (proj2 (verifyWithDcApi_unavailable
           (gmap string JsValue) (fun _ => inr "{}") sample_start
           sample_complete sample_wallet "job-portal" every_status)))
           sample_data).
  - reflexivity.
  - intros f text [= <-]. reflexivity.
Defined.

End DcApiFacts.
